(** * Local process-pool middleware: [local_worker_manager.py]

    A shallow embedding of
    [compiler_opt/distributed/local/local_worker_manager.py]: the [Task] and
    [TaskResult] envelopes, the worker entry point [_run_impl], the client
    stub built by [_make_stub] (attribute access, [remote_call], the message
    pump) and [LocalWorkerPool].

    Python statements run in a state-and-exception monad.  Each region guarded
    by [with lock:] is one uninterrupted run of that monad; the acquisition
    and the release of the lock are recorded in a trace, as are the effects
    on the pipe, on the msgid -> future map and on the futures, so that the
    order of these effects relative to the locks can be stated. *)

From stdpp Require Import list strings.
From Stdlib Require Import ZArith Sorted Lia.

(** ** Python values, exceptions and the monad *)

Module Py.

(** The exceptions the modelled code can meet. [Exception msg] stands for
    whatever a hosted method raises. *)
Inductive exn : Type :=
  | CancelledError
  | InvalidStateError
  | KeyError (key : Z)
  | TypeError
  | AttributeError (name : string)
  | Exception (msg : string).

(** Values of type [Any]: what travels as arguments, results and the
    [value] of a [TaskResult]. *)
Inductive pyval : Type :=
  | PyNone
  | PyInt (z : Z)
  | PyStr (s : string)
  | PyExc (e : exn).

Inductive result (A : Type) : Type :=
  | Ok (a : A)
  | Raise (e : exn).
Arguments Ok {A} a.
Arguments Raise {A} e.

Section Monad.
Context {W : Type}.

(** A statement: from a world to an outcome and the world it leaves.
    Effects made before an exception is raised stay made. *)
Definition M (A : Type) : Type := W -> result A * W.

Definition ret {A} (a : A) : M A := fun w => (Ok a, w).

Definition raise {A} (e : exn) : M A := fun w => (Raise e, w).

Definition bind {A B} (m : M A) (k : A -> M B) : M B :=
  fun w =>
    match m w with
    | (Ok a, w') => k a w'
    | (Raise e, w') => (Raise e, w')
    end.

(** [try: body / except BaseException as e: handler e] *)
Definition try_except {A} (body : M A) (handler : exn -> M A) : M A :=
  fun w =>
    match body w with
    | (Ok a, w') => (Ok a, w')
    | (Raise e, w') => handler e w'
    end.

(** [try: body / finally: cleanup], for a cleanup that cannot raise. *)
Definition finally {A} (body : M A) (cleanup : W -> W) : M A :=
  fun w => let '(r, w') := body w in (r, cleanup w').

(** [for x in l: body x] *)
Fixpoint for_each {A} (l : list A) (body : A -> M unit) : M unit :=
  match l with
  | [] => ret tt
  | x :: l' => bind (body x) (fun _ => for_each l' body)
  end.

(** [[body x for x in l]] *)
Fixpoint comprehension {A B} (l : list A) (body : A -> M B) : M (list B) :=
  match l with
  | [] => ret []
  | x :: l' =>
      bind (body x) (fun y =>
      bind (comprehension l' body) (fun ys => ret (y :: ys)))
  end.

(** [range(n)]: empty when [n] is not positive *)
Definition range (n : Z) : list Z := map Z.of_nat (seq 0 (Z.to_nat n)).
End Monad.
Arguments M W A : clear implicits.

End Py.
Import Py.

Declare Scope py_scope.
Delimit Scope py_scope with py.
Notation "x <- m ;; k" := (bind m (fun x => k))
  (at level 100, m at next level, right associativity) : py_scope.
Notation "m ;; k" := (bind m (fun _ => k))
  (at level 100, right associativity) : py_scope.
Open Scope py_scope.

(** ** The envelopes *)

Record Task : Type := {
  msgid : Z;
  func_name : string;
  args : list pyval;
  kwargs : list (string * pyval);
  is_urgent : bool
}.

(** The fields [msgid], [success] and [value] of [TaskResult]. *)
Record TaskResult : Type := {
  result_msgid : Z;
  success : bool;
  value : pyval
}.

(** ** [concurrent.futures.Future]

    Futures are objects shared by reference between the caller, the closure
    [remote_call] and the map of the stub: a future is an index into a heap
    of future states. *)

Definition fut : Type := nat.

Inductive fstate : Type :=
  | Pending
  | Finished (v : pyval)      (* set_result(v) *)
  | Failed (e : pyval).       (* set_exception(e) *)

(** ** The dict [self._map]

    A Python dict keeps its items in insertion order, and iterating over
    [items()] follows it: an association list with one entry per key. *)

Module Dict.
Definition t : Type := list (Z * fut).

(** [d[k]], [None] for a [KeyError] *)
Fixpoint getitem (k : Z) (d : t) : option fut :=
  match d with
  | [] => None
  | (k', v) :: d' => if Z.eqb k k' then Some v else getitem k d'
  end.

(** [d[k] = v]: an existing key keeps its place *)
Fixpoint setitem (k : Z) (v : fut) (d : t) : t :=
  match d with
  | [] => [(k, v)]
  | (k', v') :: d' =>
      if Z.eqb k k' then (k, v) :: d' else (k', v') :: setitem k v d'
  end.

(** [del d[k]] *)
Fixpoint delitem (k : Z) (d : t) : t :=
  match d with
  | [] => []
  | (k', v) :: d' =>
      if Z.eqb k k' then delitem k d' else (k', v) :: delitem k d'
  end.
End Dict.

(** ** The hosted class

    The worker class is an external collaborator: its instances have some
    state [Obj]; a method takes the positional and the keyword arguments and
    the object, and returns or raises. *)

Inductive outcome : Type :=
  | Returns (v : pyval)
  | Throws (e : exn).

Definition method (Obj : Type) : Type :=
  list pyval -> list (string * pyval) -> Obj -> outcome * Obj.

Record worker_class (Obj : Type) : Type := {
  (* the constructor call of worker_class on its arguments *)
  construct : list pyval -> list (string * pyval) -> Obj;
  (* the callable attributes of an instance, by name *)
  attribute : string -> option (method Obj);
  (* cls.is_priority_method(name) *)
  is_priority_method : string -> bool
}.
Arguments construct {Obj} _.
Arguments attribute {Obj} _.
Arguments is_priority_method {Obj} _.

(** ** The worker process: [_run_impl] and [_run] *)

Module Worker.
Section Worker.
Context {Obj : Type}.
Variable worker_cls : worker_class Obj.

(** [functools.partial] of the method on the arguments of the task *)
Definition application : Type := Obj -> outcome * Obj.

Record State : Type := {
  obj : Obj;                              (* the hosted instance *)
  sent : list TaskResult;                 (* what pipe.send has written *)
  pool : list (Z * application);          (* submitted, not yet run *)
  logged : list exn                       (* logging.error *)
}.

Definition set_obj (o : Obj) (s : State) : State :=
  {| obj := o; sent := sent s; pool := pool s; logged := logged s |}.

(** [send]: [with pipe_lock: pipe.send(task_result)] *)
Definition send (task_result : TaskResult) : M State unit :=
  fun s => (Ok tt, {| obj := obj s; sent := sent s ++ [task_result];
                      pool := pool s; logged := logged s |}).

(** [getattr(obj, name)] *)
Definition getattr (name : string) : M State (method Obj) :=
  match attribute worker_cls name with
  | Some m => ret m
  | None => raise (AttributeError name)
  end.

(** Calling [application()]: the hosted object may change; an exception
    of the method is an exception of the call. *)
Definition call (app : application) : M State pyval :=
  fun s =>
    match app (obj s) with
    | (Returns v, o) => (Ok v, set_obj o s)
    | (Throws e, o) => (Raise e, set_obj o s)
    end.

(** [pool.submit(application).add_done_callback(make_ondone(msgid))] *)
Definition submit (msgid : Z) (app : application) : M State unit :=
  fun s => (Ok tt, {| obj := obj s; sent := sent s;
                      pool := pool s ++ [(msgid, app)];
                      logged := logged s |}).

(** The single thread of the executor runs the oldest submitted
    application; [on_done] then sends its result or its exception. *)
Definition pool_run_one : M State unit :=
  fun s =>
    match pool s with
    | [] => (Ok tt, s)
    | (msgid, app) :: rest =>
        let s1 := {| obj := obj s; sent := sent s; pool := rest;
                     logged := logged s |} in
        match call app s1 with
        | (Ok v, s2) =>
            send {| result_msgid := msgid; success := true; value := v |} s2
        | (Raise e, s2) =>
            send {| result_msgid := msgid; success := false;
                    value := PyExc e |} s2
        end
    end.

(** One turn of [while True:] for the task that [pipe.recv()] returned. *)
Definition dispatch (task : Task) : M State unit :=
  the_func <- getattr (func_name task) ;;
  let application := the_func (args task) (kwargs task) in
  if is_urgent task then
    try_except
      (res <- call application ;;
       send {| result_msgid := msgid task; success := true; value := res |})
      (fun e =>
         send {| result_msgid := msgid task; success := false;
                 value := PyExc e |})
  else
    submit (msgid task) application.

Inductive loop_status : Type :=
  | Receiving.       (* blocked in pipe.recv(): the loop has no other exit *)

(** [_run_impl] after construction of the object, on the tasks that the
    pipe delivers, in order. *)
Fixpoint _run_impl (inbox : list Task) : M State loop_status :=
  match inbox with
  | [] => ret Receiving
  | task :: rest => dispatch task ;; _run_impl rest
  end.

Definition start (args : list pyval) (kwargs : list (string * pyval))
  : State :=
  {| obj := construct worker_cls args kwargs; sent := []; pool := [];
     logged := [] |}.

Definition logging_error (e : exn) : M State unit :=
  fun s => (Ok tt, {| obj := obj s; sent := sent s; pool := pool s;
                      logged := logged s ++ [e] |}).

(** [_run]: log whatever escapes [_run_impl] and raise it again. *)
Definition _run (inbox : list Task) : M State loop_status :=
  try_except (_run_impl inbox) (fun e => logging_error e ;; raise e).
End Worker.
End Worker.

(** ** The client stub: the class [_Stub] of [_make_stub] *)

Module Stub.

(** [self._lock] guards the map, [self._pipe_lock] the pipe and
    [self._msgidlock] the counter. *)
Inductive lock : Type := _lock | _pipe_lock | _msgidlock.

Inductive event : Type :=
  | Acquire (l : lock)
  | Release (l : lock)
  | PipeSend (t : Task)                 (* self._pipe.send(t) *)
  | MapSet (k : Z) (f : fut)            (* self._map[k] = f *)
  | MapDel (k : Z)                      (* del self._map[k] *)
  | MapNone                             (* self._map = None *)
  | SetResult (f : fut) (v : pyval)     (* f.set_result(v) *)
  | SetException (f : fut) (e : pyval). (* f.set_exception(e) *)

(** The fields of one stub that the calls and the pump touch, the futures
    created so far, and the trace. *)
Record World : Type := {
  heap : list fstate;
  _msgid : Z;
  _map : option Dict.t;                 (* None once stopped *)
  _pipe : list Task;                    (* tasks sent to the worker *)
  trace : list event
}.

(** What [__init__] leaves: no future, counter 0, empty map. *)
Definition __init__ : World :=
  {| heap := []; _msgid := 0; _map := Some []; _pipe := []; trace := [] |}.

Definition log (e : event) (w : World) : World :=
  {| heap := heap w; _msgid := _msgid w; _map := _map w; _pipe := _pipe w;
     trace := trace w ++ [e] |}.

Definition set_heap (h : list fstate) (w : World) : World :=
  {| heap := h; _msgid := _msgid w; _map := _map w; _pipe := _pipe w;
     trace := trace w |}.

Definition set_map (m : option Dict.t) (w : World) : World :=
  {| heap := heap w; _msgid := _msgid w; _map := m; _pipe := _pipe w;
     trace := trace w |}.

(** [with l: body]: the lock is released however the body ends. *)
Definition with_lock {A} (l : lock) (body : M World A) : M World A :=
  fun w => finally body (log (Release l)) (log (Acquire l) w).

(** [concurrent.futures.Future()] *)
Definition Future : M World fut :=
  fun w => (Ok (length (heap w)), set_heap (heap w ++ [Pending]) w).

(** [f.set_result(v)]: a future that is already done refuses with
    [InvalidStateError]. *)
Definition set_result (f : fut) (v : pyval) : M World unit :=
  fun w =>
    match heap w !! f with
    | Some Pending =>
        (Ok tt, log (SetResult f v) (set_heap (<[f := Finished v]> (heap w)) w))
    | _ => (Raise InvalidStateError, w)
    end.

(** [f.set_exception(e)], likewise. *)
Definition set_exception (f : fut) (e : pyval) : M World unit :=
  fun w =>
    match heap w !! f with
    | Some Pending =>
        (Ok tt, log (SetException f e) (set_heap (<[f := Failed e]> (heap w)) w))
    | _ => (Raise InvalidStateError, w)
    end.

(** [self._pipe.send(task)] *)
Definition pipe_send (task : Task) : M World unit :=
  fun w => (Ok tt, log (PipeSend task)
              {| heap := heap w; _msgid := _msgid w; _map := _map w;
                 _pipe := _pipe w ++ [task]; trace := trace w |}).

(** [self._map[k]]: [KeyError] for a missing key, [TypeError] on [None]. *)
Definition map_getitem (k : Z) : M World fut :=
  fun w =>
    match _map w with
    | None => (Raise TypeError, w)
    | Some d =>
        match Dict.getitem k d with
        | Some f => (Ok f, w)
        | None => (Raise (KeyError k), w)
        end
    end.

(** [del self._map[k]] *)
Definition map_delitem (k : Z) : M World unit :=
  fun w =>
    match _map w with
    | None => (Raise TypeError, w)
    | Some d =>
        match Dict.getitem k d with
        | Some _ => (Ok tt, log (MapDel k) (set_map (Some (Dict.delitem k d)) w))
        | None => (Raise (KeyError k), w)
        end
    end.

(** [self._map[k] = f] *)
Definition map_setitem (k : Z) (f : fut) : M World unit :=
  fun w =>
    match _map w with
    | None => (Raise TypeError, w)
    | Some d => (Ok tt, log (MapSet k f) (set_map (Some (Dict.setitem k f d)) w))
    end.

(** [self._map.items()]: [AttributeError] on [None]. *)
Definition map_items : M World (list (Z * fut)) :=
  fun w =>
    match _map w with
    | None => (Raise (AttributeError "items"), w)
    | Some d => (Ok d, w)
    end.

(** [self._map = None] *)
Definition map_assign_None : M World unit :=
  fun w => (Ok tt, log MapNone (set_map None w)).

(** [_is_stopped] *)
Definition _is_stopped : M World bool :=
  fun w => (Ok (match _map w with None => true | Some _ => false end), w).

(** *** The message pump *)

(** The body of [while True:] for a [TaskResult]. *)
Definition pump_result (task_result : TaskResult) : M World unit :=
  with_lock _lock
    (future <- map_getitem (result_msgid task_result) ;;
     map_delitem (result_msgid task_result) ;;
     if success task_result
     then set_result future (value task_result)
     else set_exception future (value task_result)).

(** After [break]: cancel what is pending and null the map. *)
Definition pump_stop : M World unit :=
  with_lock _lock
    (items <- map_items ;;
     for_each items
       (fun kv => set_exception (snd kv) (PyExc CancelledError)) ;;
     map_assign_None).

Inductive pump_status : Type :=
  | Receiving      (* blocked in self._pipe.recv() *)
  | Exited.        (* returned *)

(** [_msg_pump] on what the pipe delivers, in order; [None] is the poison
    pill of the observer.  An exception ends the thread where it is
    raised. *)
Fixpoint _msg_pump (inbox : list (option TaskResult))
  : M World pump_status :=
  match inbox with
  | [] => ret Receiving
  | None :: _ => pump_stop ;; ret Exited
  | Some task_result :: rest => pump_result task_result ;; _msg_pump rest
  end.

(** *** Attribute access and [remote_call] *)

(** The closure [remote_call] that [__getattr__] returns: the variables
    [name], [msgid] and [result_future] it has captured. *)
Record closure : Type := {
  name : string;
  call_msgid : Z;
  result_future : fut
}.

Section WithClass.
Context {Obj : Type}.
Variable cls : worker_class Obj.

(** [__getattr__(self, name)] *)
Definition __getattr__ (name : string) : M World closure :=
  result_future <- Future ;;
  msgid <- with_lock _msgidlock
             (fun w => (Ok (_msgid w),
                        {| heap := heap w; _msgid := (_msgid w + 1)%Z;
                           _map := _map w; _pipe := _pipe w;
                           trace := trace w |})) ;;
  ret {| name := name; call_msgid := msgid;
         result_future := result_future |}.

(** [remote_call], the closure applied to its arguments *)
Definition remote_call (c : closure) (args : list pyval)
    (kwargs : list (string * pyval)) : M World fut :=
  with_lock _lock
    (stopped <- _is_stopped ;;
     if (stopped : bool) then
       set_exception (result_future c) (PyExc CancelledError)
     else
       (with_lock _pipe_lock
          (pipe_send {| msgid := call_msgid c; func_name := name c;
                        args := args; kwargs := kwargs;
                        is_urgent := is_priority_method cls (name c) |}) ;;
        map_setitem (call_msgid c) (result_future c))) ;;
  ret (result_future c).

(** The task that [remote_call] builds from what the closure has
    captured. *)
Definition task_of (c : closure) (args : list pyval)
    (kwargs : list (string * pyval)) : Task :=
  {| msgid := call_msgid c; func_name := name c; args := args;
     kwargs := kwargs; is_urgent := is_priority_method cls (name c) |}.

(** The expression [stub.name(args, kwargs)]: the access, then the
    call of what it returned. *)
Definition call_method (name : string) (args : list pyval)
    (kwargs : list (string * pyval)) : M World fut :=
  c <- __getattr__ name ;;
  remote_call c args kwargs.

(** What can happen to one stub, in some order: a thread reads an
    attribute, a thread calls a closure it holds, the pump receives a
    message. *)
Inductive op : Type :=
  | Access (name : string)
  | Invoke (c : closure) (args : list pyval)
      (kwargs : list (string * pyval))
  | Deliver (msg : option TaskResult).

(** One operation: the closure it hands out, if any, and the world it
    leaves.  An exception ends the thread that met it, not the stub. *)
Definition step (o : op) (w : World) : list closure * World :=
  match o with
  | Access name =>
      match __getattr__ name w with
      | (Ok c, w') => ([c], w')
      | (Raise _, w') => ([], w')
      end
  | Invoke c args kwargs => ([], snd (remote_call c args kwargs w))
  | Deliver msg => ([], snd (_msg_pump [msg] w))
  end.

(** The closures handed out along a sequence of operations, in order,
    and the final world. *)
Fixpoint run (ops : list op) (w : World) : list closure * World :=
  match ops with
  | [] => ([], w)
  | o :: ops' =>
      let '(cs, w1) := step o w in
      let '(cs', w2) := run ops' w1 in
      (cs ++ cs', w2)
  end.

(** [f(a1); f(a2); ...]: one closure called once per argument tuple. *)
Fixpoint invoke_each (c : closure)
    (calls : list (list pyval * list (string * pyval)))
  : M World (list fut) :=
  match calls with
  | [] => ret []
  | (args, kwargs) :: calls' =>
      f <- remote_call c args kwargs ;;
      fs <- invoke_each c calls' ;;
      ret (f :: fs)
  end.

(** The same for callers that never keep a closure, and write every
    call as [stub.name(args, kwargs)]. *)
Inductive plain_op : Type :=
  | Call (name : string) (args : list pyval)
      (kwargs : list (string * pyval))
  | Receive (msg : option TaskResult).

Definition plain_step (o : plain_op) (w : World) : World :=
  match o with
  | Call name args kwargs => snd (call_method name args kwargs w)
  | Receive msg => snd (_msg_pump [msg] w)
  end.

Fixpoint plain_run (ops : list plain_op) (w : World) : World :=
  match ops with
  | [] => w
  | o :: ops' => plain_run ops' (plain_step o w)
  end.
End WithClass.

(** The state of the map that the pump counts on: one entry per msgid,
    each below the counter, and the futures distinct and not yet done. *)
Definition map_ok (w : World) : Prop :=
  match _map w with
  | None => True
  | Some d =>
      NoDup (map fst d) /\ NoDup (map snd d) /\
      forall kv, kv ∈ d ->
        (fst kv < _msgid w)%Z /\ heap w !! snd kv = Some Pending
  end.

(** The msgids of the tasks written to the pipe, in sending order. *)
Definition sent_msgids (w : World) : list Z := map msgid (_pipe w).
End Stub.

(** ** [LocalWorkerPool]

    The pool sees a stub as a handle: it creates it, calls [shutdown] and
    [join] on it.  (On a stub these two names, like every name the class or
    the instance defines, are found by the normal lookup and never reach
    [__getattr__].) *)

Module Pool.

(** The stubs, numbered in order of creation. *)
Definition stub : Type := nat.

Inductive event : Type :=
  | Start (s : stub)            (* _Stub(): process, observer, pump started *)
  | Kill (s : stub)             (* self._process.kill() called *)
  | JoinObserver (s : stub)     (* self._observer.join() called *)
  | JoinPump (s : stub)         (* self._pump.join() called *)
  | JoinProcess (s : stub).     (* self._process.join() called *)

Record World : Type := {
  created : nat;
  events : list event
}.

Definition log (e : event) : M World unit :=
  fun w => (Ok tt, {| created := created w; events := events w ++ [e] |}).

Record LocalWorkerPool : Type := { _stubs : list stub }.

Section Host.
(** [multiprocessing.cpu_count()] *)
Variable cpu_count : Z.
(** Whether [kill()] on the process of a stub raises, and what. *)
Variable kill_raises : stub -> option exn.

(** [_make_stub(worker_class, ...)] *)
Definition _make_stub : M World stub :=
  fun w => (Ok (created w),
            {| created := S (created w);
               events := events w ++ [Start (created w)] |}).

Definition process_kill (s : stub) : M World unit :=
  log (Kill s) ;;
  match kill_raises s with
  | Some e => raise e
  | None => ret tt
  end.

(** [shutdown]: [try: self._process.kill() / except: pass] *)
Definition shutdown (s : stub) : M World unit :=
  try_except (process_kill s) (fun _ => ret tt).

(** [join] *)
Definition join (s : stub) : M World unit :=
  log (JoinObserver s) ;;
  log (JoinPump s) ;;
  log (JoinProcess s).

(** [not count], for [count: Optional[int]] *)
Definition not_ (count : option Z) : bool :=
  match count with
  | None => true
  | Some c => Z.eqb c 0
  end.

(** [LocalWorkerPool.__init__(worker_class, count, ...)] *)
Definition __init__ (count : option Z) : M World LocalWorkerPool :=
  let count := if not_ count then cpu_count else default 0%Z count in
  stubs <- comprehension (range count) (fun _ => _make_stub) ;;
  ret {| _stubs := stubs |}.

Definition __enter__ (self : LocalWorkerPool) : M World (list stub) :=
  ret (_stubs self).

Definition __exit__ (self : LocalWorkerPool) : M World unit :=
  for_each (_stubs self) shutdown ;;
  for_each (_stubs self) join.
End Host.
End Pool.

(** ** A hosted class to run the model on

    [echo] returns its first argument, [boom] raises and is the one
    priority method; the object counts the calls it has served. *)

Module Sample.
Definition echo : method nat :=
  fun args _ n => (Returns (hd PyNone args), S n).

Definition boom : method nat :=
  fun _ _ n => (Throws (Exception "x"), S n).

Definition cls : worker_class nat :=
  {| construct := fun _ _ => 0;
     attribute := fun name =>
       if String.eqb name "echo" then Some echo
       else if String.eqb name "boom" then Some boom
       else None;
     is_priority_method := fun name => String.eqb name "boom" |}.

(** The closure of the first attribute access on a new stub. *)
Definition first_closure : Stub.closure :=
  {| Stub.name := "echo"; Stub.call_msgid := 0; Stub.result_future := 0 |}.

(** A stub after [f = stub.echo; f(1); f(2)]. *)
Definition called_twice : list Stub.closure * Stub.World :=
  Stub.run cls
    [Stub.Access "echo";
     Stub.Invoke first_closure [PyInt 1] [];
     Stub.Invoke first_closure [PyInt 2] []]
    Stub.__init__.

(** A stub after [stub.echo(5)]. *)
Definition one_pending : Stub.World :=
  snd (Stub.call_method cls "echo" [PyInt 5] [] Stub.__init__).

(** A stub whose pump has received the poison pill, and on which
    [stub.echo] is then read. *)
Definition stopped : Stub.World :=
  snd (Stub.__getattr__ "echo" (snd (Stub._msg_pump [None] Stub.__init__))).

(** The result that answers [stub.echo(5)]. *)
Definition echo_reply : TaskResult :=
  {| result_msgid := 0; success := true; value := PyInt 5 |}.

Definition no_such_method : Task :=
  {| msgid := 0; func_name := "nope"; args := []; kwargs := [];
     is_urgent := true |}.

Definition urgent_boom : Task :=
  {| msgid := 7; func_name := "boom"; args := []; kwargs := [];
     is_urgent := true |}.

Definition no_pool : Pool.World :=
  {| Pool.created := 0; Pool.events := [] |}.
End Sample.

(** ** The two threads of the worker

    The main thread runs the loop of [_run_impl]; the one thread of the
    [ThreadPoolExecutor] runs what was submitted.  A schedule says which of
    the two moves next. *)

Module Schedule.
Section Schedule.
Context {Obj : Type}.
Variable worker_cls : worker_class Obj.

Inductive turn : Type :=
  | Recv (task : Task)     (* the loop receives and dispatches a task *)
  | Execute.               (* the executor runs its next application *)

Definition play_turn (t : turn) : M Worker.State unit :=
  match t with
  | Recv task => Worker.dispatch worker_cls task
  | Execute => Worker.pool_run_one
  end.

(** The turns in order; an exception of the loop ends the process. *)
Definition play (ts : list turn) : M Worker.State unit :=
  for_each ts play_turn.

(** The msgids of the tasks a schedule receives, in order. *)
Fixpoint received (ts : list turn) : list Z :=
  match ts with
  | [] => []
  | Recv task :: ts' => msgid task :: received ts'
  | Execute :: ts' => received ts'
  end.

(** The msgids already answered, then those still queued. *)
Definition accounted (s : @Worker.State Obj) : list Z :=
  map result_msgid (Worker.sent s) ++ map fst (Worker.pool s).

(** The [TaskResult] that reports an outcome, as [send] gets it both from
    the urgent path and from [on_done]. *)
Definition reply_of (msgid : Z) (o : outcome) : TaskResult :=
  match o with
  | Returns v => {| result_msgid := msgid; success := true; value := v |}
  | Throws e =>
      {| result_msgid := msgid; success := false; value := PyExc e |}
  end.

(** What a queue of applications answers when run in order on the object
    [o], and the object it leaves. *)
Fixpoint answers (o : Obj) (q : list (Z * @Worker.application Obj))
  : list TaskResult * Obj :=
  match q with
  | [] => ([], o)
  | (k, app) :: q' =>
      let '(out, o1) := app o in
      let '(rs, o2) := answers o1 q' in
      (reply_of k out :: rs, o2)
  end.
End Schedule.
End Schedule.

(** ** The observer of a stub, and what the pump makes of a result *)

Module Lifecycle.

(** [observer]: [self._process.join()] returns once the process is gone,
    and the poison pill is then written to the pipe, behind whatever the
    worker had written and the pump has not yet read. *)
Definition observer (unread : list TaskResult) : list (option TaskResult) :=
  map Some unread ++ [None].

(** The state in which the pump leaves the future of a result. *)
Definition resolved (r : TaskResult) : fstate :=
  if success r then Finished (value r) else Failed (value r).

(** What never goes back on a stub: a future that is done keeps its state,
    no future disappears, what was sent stays sent, the counter does not
    decrease. *)
Definition extends (w w' : Stub.World) : Prop :=
  (forall f st, Stub.heap w !! f = Some st -> st <> Pending ->
                Stub.heap w' !! f = Some st) /\
  length (Stub.heap w) <= length (Stub.heap w') /\
  Stub._pipe w `prefix_of` Stub._pipe w' /\
  (Stub._msgid w <= Stub._msgid w')%Z.
End Lifecycle.

(** ** The discipline of the locks of a stub *)

Module Locking.
Import Stub.






End Locking.

(** ** More situations to run the model on *)

Module Scenario.

(** [echo(5)], not urgent. *)
Definition queued_echo : Task :=
  {| msgid := 3; func_name := "echo"; args := [PyInt 5]; kwargs := [];
     is_urgent := false |}.

(** The loop receives a queued call, then an urgent one, and the executor
    runs once. *)
Definition mixed : list Schedule.turn :=
  [Schedule.Recv queued_echo; Schedule.Recv Sample.urgent_boom;
   Schedule.Execute].

(** A stub after [stub.echo(1); stub.boom()]. *)
Definition two_calls : list Stub.plain_op :=
  [Stub.Call "echo" [PyInt 1] []; Stub.Call "boom" [] []].

Definition two_pending : Stub.World :=
  Stub.plain_run Sample.cls two_calls Stub.__init__.

(** The failure that answers [stub.boom()] there. *)
Definition boom_reply : TaskResult :=
  {| result_msgid := 1; success := false; value := PyExc (Exception "x") |}.

(** A result for a msgid that no call has. *)
Definition stray_reply : TaskResult :=
  {| result_msgid := 9; success := true; value := PyNone |}.

(** A stub after [f = stub.echo; f(1)], the result that answers it, and
    [f(2)]: the second call has put the future of [f], which is done, back
    into the map. *)
Definition reused_after_reply : Stub.World :=
  snd (Stub.run Sample.cls
         [Stub.Access "echo";
          Stub.Invoke Sample.first_closure [PyInt 1] [];
          Stub.Deliver (Some Sample.echo_reply);
          Stub.Invoke Sample.first_closure [PyInt 2] []]
         Stub.__init__).

(** That stub once its pump has received the poison pill. *)
Definition after_poison_pill : Stub.World :=
  snd (Stub._msg_pump [None] reused_after_reply).
End Scenario.

(** * Properties *)

(** Unfolds the monad and the primitives of the stub. *)
Ltac unfold_stub :=
  unfold Stub.pump_result, Stub.pump_stop, Stub.remote_call,
    Stub.call_method, Stub.__getattr__, Stub.with_lock, finally, bind, ret,
    raise, Stub._is_stopped, Stub.map_getitem, Stub.map_delitem,
    Stub.map_setitem, Stub.map_items, Stub.map_assign_None, Stub.set_result,
    Stub.set_exception, Stub.pipe_send, Stub.Future, Stub.log, Stub.set_heap,
    Stub.set_map; simpl.


(** ** The dict *)

Section DictFacts.
Import Dict.

Lemma getitem_delitem_eq (k : Z) (d : Dict.t) :
  getitem k (delitem k d) = None.
Proof.
  induction d as [|[k' v] d IH]; simpl; [reflexivity|].
  destruct (Z.eqb k k') eqn:E; simpl; [exact IH|].
  rewrite E. exact IH.
Qed.

Lemma getitem_delitem_ne (k k0 : Z) (d : Dict.t) :
  k0 <> k -> getitem k0 (delitem k d) = getitem k0 d.
Proof.
  intros Hne. induction d as [|[k' v] d IH]; simpl; [reflexivity|].
  destruct (Z.eqb k k') eqn:E; simpl.
  - apply Z.eqb_eq in E. subst k'.
    destruct (Z.eqb k0 k) eqn:E0; [apply Z.eqb_eq in E0; contradiction|].
    exact IH.
  - destruct (Z.eqb k0 k'); [reflexivity | exact IH].
Qed.

Lemma getitem_setitem_eq (k : Z) (v : fut) (d : Dict.t) :
  getitem k (setitem k v d) = Some v.
Proof.
  induction d as [|[k' v'] d IH]; simpl.
  - rewrite Z.eqb_refl. reflexivity.
  - destruct (Z.eqb k k') eqn:E; simpl.
    + rewrite Z.eqb_refl. reflexivity.
    + rewrite E. exact IH.
Qed.

Lemma getitem_setitem_ne (k k0 : Z) (v : fut) (d : Dict.t) :
  k0 <> k -> getitem k0 (setitem k v d) = getitem k0 d.
Proof.
  intros Hne. induction d as [|[k' v'] d IH]; simpl.
  - destruct (Z.eqb k0 k) eqn:E; [apply Z.eqb_eq in E; contradiction|].
    reflexivity.
  - destruct (Z.eqb k k') eqn:E; simpl.
    + apply Z.eqb_eq in E. subst k'.
      destruct (Z.eqb k0 k) eqn:E0; [apply Z.eqb_eq in E0; contradiction|].
      reflexivity.
    + destruct (Z.eqb k0 k'); [reflexivity | exact IH].
Qed.

Lemma getitem_Some_elem (k : Z) (v : fut) (d : Dict.t) :
  getitem k d = Some v -> (k, v) ∈ d.
Proof.
  induction d as [|[k' v'] d IH]; simpl; [discriminate|].
  destruct (Z.eqb k k') eqn:E.
  - apply Z.eqb_eq in E. subst k'. intros [= ->]. left.
  - intros H. right. exact (IH H).
Qed.

Lemma getitem_None_fresh (k : Z) (d : Dict.t) :
  k ∉ map fst d -> getitem k d = None.
Proof.
  induction d as [|[k' v'] d IH]; simpl; [reflexivity|].
  intros Hn. destruct (Z.eqb k k') eqn:E.
  - apply Z.eqb_eq in E. subst k'. exfalso. apply Hn. left.
  - apply IH. intros Hin. apply Hn. right. exact Hin.
Qed.

Lemma setitem_fresh (k : Z) (v : fut) (d : Dict.t) :
  k ∉ map fst d -> setitem k v d = d ++ [(k, v)].
Proof.
  induction d as [|[k' v'] d IH]; simpl; [reflexivity|].
  intros Hn. destruct (Z.eqb k k') eqn:E.
  - apply Z.eqb_eq in E. subst k'. exfalso. apply Hn. left.
  - f_equal. apply IH. intros Hin. apply Hn. right. exact Hin.
Qed.

Lemma elem_delitem (k k0 : Z) (v : fut) (d : Dict.t) :
  (k0, v) ∈ delitem k d -> k0 <> k /\ (k0, v) ∈ d.
Proof.
  induction d as [|[k' v'] d IH]; simpl.
  - intros H. inversion H.
  - destruct (Z.eqb k k') eqn:E.
    + intros H. destruct (IH H) as [? ?]. split; [assumption|]. now right.
    + apply Z.eqb_neq in E. intros H.
      apply elem_of_cons in H as [[= -> ->]|H].
      * split; [congruence | left].
      * destruct (IH H) as [? ?]. split; [assumption|]. now right.
Qed.
End DictFacts.

(** ** The stub *)

Section StubFacts.
Import Stub.
Context {Obj : Type}.
Variable cls : worker_class Obj.

(** What the pump does with a result whose msgid is in the map and whose
    future is not yet done. *)
Lemma pump_result_known (w : World) (tr : TaskResult) (d : Dict.t) (f : fut) :
  _map w = Some d ->
  Dict.getitem (result_msgid tr) d = Some f ->
  heap w !! f = Some Pending ->
  pump_result tr w =
    (Ok tt,
     {| heap := <[f := if success tr then Finished (value tr)
                       else Failed (value tr)]> (heap w);
        _msgid := _msgid w;
        _map := Some (Dict.delitem (result_msgid tr) d);
        _pipe := _pipe w;
        trace := trace w ++
                 [Acquire _lock; MapDel (result_msgid tr);
                  if success tr then SetResult f (value tr)
                  else SetException f (value tr);
                  Release _lock] |}).
Proof.
  intros Hmap Hget Hpend. unfold_stub.
  rewrite Hmap, Hget. simpl. rewrite Hget. simpl.
  destruct (success tr); simpl; rewrite Hpend; simpl;
    rewrite <- !app_assoc; reflexivity.
Qed.

(** A result for a msgid that is not in the map: [KeyError], nothing
    changed, and the pump thread ends there. *)
Lemma pump_result_unknown (w : World) (tr : TaskResult) (d : Dict.t)
    (rest : list (option TaskResult)) :
  _map w = Some d ->
  Dict.getitem (result_msgid tr) d = None ->
  _msg_pump (Some tr :: rest) w =
    (Raise (KeyError (result_msgid tr)),
     log (Release _lock) (log (Acquire _lock) w)).
Proof.
  intros Hmap Hget. simpl. unfold_stub. rewrite Hmap, Hget. reflexivity.
Qed.


(** [remote_call] on a live stub, whatever the state of the future. *)
Lemma remote_call_live (w : World) (c : closure) (args : list pyval)
    (kwargs : list (string * pyval)) (d : Dict.t) :
  _map w = Some d ->
  remote_call cls c args kwargs w =
    (Ok (result_future c),
     {| heap := heap w;
        _msgid := _msgid w;
        _map := Some (Dict.setitem (call_msgid c) (result_future c) d);
        _pipe := _pipe w ++ [task_of cls c args kwargs];
        trace := trace w ++
                 [Acquire _lock; Acquire _pipe_lock;
                  PipeSend (task_of cls c args kwargs); Release _pipe_lock;
                  MapSet (call_msgid c) (result_future c);
                  Release _lock] |}).
Proof.
  intros Hmap. unfold_stub. rewrite Hmap. simpl.
  rewrite <- !app_assoc. reflexivity.
Qed.

(** [remote_call] on a stopped stub, for a future that is not yet done. *)
Lemma remote_call_stopped (w : World) (c : closure) (args : list pyval)
    (kwargs : list (string * pyval)) :
  _map w = None ->
  heap w !! result_future c = Some Pending ->
  remote_call cls c args kwargs w =
    (Ok (result_future c),
     {| heap := <[result_future c := Failed (PyExc CancelledError)]> (heap w);
        _msgid := _msgid w;
        _map := None;
        _pipe := _pipe w;
        trace := trace w ++
                 [Acquire _lock;
                  SetException (result_future c) (PyExc CancelledError);
                  Release _lock] |}).
Proof.
  intros Hmap Hpend. unfold_stub. rewrite Hmap. simpl. rewrite Hpend. simpl.
  rewrite <- !app_assoc. reflexivity.
Qed.

(** [remote_call] on a stopped stub, for a future that is already done:
    [set_exception] refuses, and the call raises instead of returning. *)
Lemma remote_call_stopped_done (w : World) (c : closure)
    (args : list pyval) (kwargs : list (string * pyval)) (st : fstate) :
  _map w = None ->
  heap w !! result_future c = Some st ->
  st <> Pending ->
  remote_call cls c args kwargs w =
    (Raise InvalidStateError, log (Release _lock) (log (Acquire _lock) w)).
Proof.
  intros Hmap Hst Hne. unfold_stub. rewrite Hmap. simpl. rewrite Hst.
  destruct st; [contradiction | reflexivity | reflexivity].
Qed.

(** What an attribute access does: one new future, one msgid taken from
    the counter under [self._msgidlock]; nothing sent, nothing
    registered. *)
Lemma getattr_spec (w : World) (n : string) :
  __getattr__ n w =
    (Ok {| name := n; call_msgid := _msgid w;
           result_future := length (heap w) |},
     {| heap := heap w ++ [Pending];
        _msgid := (_msgid w + 1)%Z;
        _map := _map w;
        _pipe := _pipe w;
        trace := trace w ++ [Acquire _msgidlock; Release _msgidlock] |}).
Proof. unfold_stub. rewrite <- !app_assoc. reflexivity. Qed.

Lemma lookup_fresh_future (h : list fstate) :
  (h ++ [Pending]) !! length h = Some Pending.
Proof. apply lookup_snoc_Some. right. split; reflexivity. Qed.

(** The whole expression [stub.n(args, kwargs)]: its future is new, so a
    stopped stub always fails it with the cancellation. *)
Lemma call_method_spec (w : World) (n : string) (args : list pyval)
    (kwargs : list (string * pyval)) :
  let f := length (heap w) in
  let c := {| name := n; call_msgid := _msgid w; result_future := f |} in
  exists w',
    call_method cls n args kwargs w = (Ok f, w') /\
    _msgid w' = (_msgid w + 1)%Z /\
    match _map w with
    | None =>
        _map w' = None /\ _pipe w' = _pipe w /\
        heap w' = heap w ++ [Failed (PyExc CancelledError)]
    | Some d =>
        _map w' = Some (Dict.setitem (_msgid w) f d) /\
        _pipe w' = _pipe w ++ [task_of cls c args kwargs] /\
        heap w' = heap w ++ [Pending]
    end.
Proof.
  intros f c. unfold call_method, bind at 1. rewrite getattr_spec. fold f c.
  destruct (_map w) as [d|] eqn:Hmap.
  - erewrite remote_call_live by reflexivity.
    eexists. split; [reflexivity|]. simpl. auto.
  - erewrite remote_call_stopped;
      [| reflexivity | simpl; apply lookup_fresh_future].
    eexists. split; [reflexivity|]. simpl. split; [reflexivity|].
    split; [reflexivity|]. split; [reflexivity|].
    subst f. clear. induction (heap w) as [|x h IH]; simpl;
      [reflexivity | f_equal; exact IH].
Qed.


Lemma setitem_idem (k : Z) (v : fut) (d : Dict.t) :
  Dict.setitem k v (Dict.setitem k v d) = Dict.setitem k v d.
Proof.
  induction d as [|[k' v'] d IH]; simpl.
  - rewrite Z.eqb_refl. reflexivity.
  - destruct (Z.eqb k k') eqn:E; simpl.
    + rewrite Z.eqb_refl. reflexivity.
    + rewrite E. f_equal. exact IH.
Qed.

(** One closure called again and again on a stub that stays live. *)
Lemma invoke_each_live (c : closure)
    (calls : list (list pyval * list (string * pyval))) :
  forall (w : World) (d : Dict.t),
    _map w = Some d ->
    exists w',
      invoke_each cls c calls w =
        (Ok (map (fun _ => result_future c) calls), w') /\
      _msgid w' = _msgid w /\
      heap w' = heap w /\
      _pipe w' =
        _pipe w ++ map (fun ak => task_of cls c (fst ak) (snd ak)) calls /\
      _map w' =
        Some (match calls with
              | [] => d
              | _ :: _ => Dict.setitem (call_msgid c) (result_future c) d
              end).
Proof.
  induction calls as [|[a k] calls IH]; intros w d Hmap.
  - exists w. simpl. unfold ret. rewrite app_nil_r. auto.
  - simpl. unfold bind at 1.
    rewrite (remote_call_live w c a k d Hmap). unfold bind at 1.
    match goal with |- context [invoke_each cls c calls ?w1] =>
      destruct (IH w1 _ eq_refl) as (w' & Hrun & Hid & Hheap & Hpipe & Hm)
    end.
    exists w'. rewrite Hrun. unfold ret.
    split; [reflexivity|]. simpl in *.
    split; [exact Hid|]. split; [exact Hheap|]. split.
    + rewrite Hpipe, <- app_assoc. reflexivity.
    + rewrite Hm. destruct calls; [reflexivity|].
      rewrite setitem_idem. reflexivity.
Qed.

(** C8.  An attribute access that reaches [__getattr__] creates exactly
    one future and takes exactly one msgid from the counter, at once:
    nothing is sent and nothing registered by the access itself.  Calling
    the closure it returned, any number of times, on a stub that is live,
    returns that same future each time and sends tasks that all carry that
    same msgid; no further msgid is taken and no further future created,
    and the map holds the future under that msgid. *)
Theorem access_allocates_calls_reuse (w w1 : World) (n : string)
    (d1 : Dict.t) (calls : list (list pyval * list (string * pyval))) :
  _map w1 = Some d1 ->
  let c := {| name := n; call_msgid := _msgid w;
              result_future := length (heap w) |} in
  __getattr__ n w =
    (Ok c,
     {| heap := heap w ++ [Pending];
        _msgid := (_msgid w + 1)%Z;
        _map := _map w;
        _pipe := _pipe w;
        trace := trace w ++ [Acquire _msgidlock; Release _msgidlock] |}) /\
  exists w2,
    invoke_each cls c calls w1 =
      (Ok (map (fun _ => result_future c) calls), w2) /\
    _msgid w2 = _msgid w1 /\
    heap w2 = heap w1 /\
    map msgid (_pipe w2) =
      map msgid (_pipe w1) ++ map (fun _ => call_msgid c) calls /\
    _pipe w2 =
      _pipe w1 ++ map (fun ak => task_of cls c (fst ak) (snd ak)) calls /\
    (calls <> [] ->
     _map w2 = Some (Dict.setitem (call_msgid c) (result_future c) d1) /\
     exists d2, _map w2 = Some d2 /\
       Dict.getitem (call_msgid c) d2 = Some (result_future c)).
Proof.
  intros Hmap c. split; [apply getattr_spec|].
  destruct (invoke_each_live c calls w1 d1 Hmap)
    as (w2 & Hrun & Hid & Hheap & Hpipe & Hm).
  exists w2. split; [exact Hrun|]. split; [exact Hid|].
  split; [exact Hheap|]. split.
  - rewrite Hpipe, map_app, map_map. reflexivity.
  - split; [exact Hpipe|]. intros Hne.
    destruct calls as [|x calls]; [contradiction|].
    split; [exact Hm|]. eexists. split; [exact Hm|].
    apply getitem_setitem_eq.
Qed.

(** The loop of [pump_stop] over items whose futures are distinct and not
    yet done: each is failed with the cancellation, in order; no other
    future changes. *)
Lemma cancel_each (items : list (Z * fut)) :
  forall w : World,
    NoDup (map snd items) ->
    (forall kv, kv ∈ items -> heap w !! snd kv = Some Pending) ->
    exists h',
      for_each items
        (fun kv => set_exception (snd kv) (PyExc CancelledError)) w =
        (Ok tt,
         {| heap := h'; _msgid := _msgid w; _map := _map w;
            _pipe := _pipe w;
            trace := trace w ++
              map (fun kv => SetException (snd kv) (PyExc CancelledError))
                items |}) /\
      length h' = length (heap w) /\
      (forall kv, kv ∈ items ->
         h' !! snd kv = Some (Failed (PyExc CancelledError))) /\
      (forall f, f ∉ map snd items -> h' !! f = heap w !! f).
Proof.
  induction items as [|[k f] items IH]; intros w Hnd Hpend.
  - exists (heap w). simpl. unfold ret. rewrite app_nil_r.
    split; [destruct w; reflexivity|]. split; [reflexivity|].
    split; [intros kv H; inversion H | reflexivity].
  - simpl in Hnd. apply NoDup_cons in Hnd as [Hf Hnd].
    assert (Hfp : heap w !! f = Some Pending)
      by (apply (Hpend (k, f)); left).
    simpl. unfold bind at 1. unfold set_exception at 1. simpl.
    rewrite Hfp.
    set (w1 := log _ _).
    assert (Hpend1 : forall kv, kv ∈ items ->
              heap w1 !! snd kv = Some Pending).
    { intros kv Hin. simpl. rewrite list_lookup_insert_ne.
      - apply Hpend. now right.
      - intros ->. apply Hf. apply list_elem_of_fmap. exists kv. auto. }
    destruct (IH w1 Hnd Hpend1) as (h' & Hrun & Hlen & Hc & Ho).
    exists h'. rewrite Hrun. simpl. rewrite <- app_assoc. simpl.
    split; [reflexivity|]. split.
    + rewrite Hlen. simpl. apply length_insert.
    + split.
      * intros kv Hin. apply elem_of_cons in Hin as [->|Hin].
        -- simpl. rewrite (Ho f Hf). simpl.
           apply list_lookup_insert_eq. apply lookup_lt_Some in Hfp.
           exact Hfp.
        -- apply Hc. exact Hin.
      * intros f0 Hf0. apply not_elem_of_cons in Hf0 as [Hne Hf0].
        rewrite (Ho f0 Hf0). simpl.
        apply list_lookup_insert_ne. congruence.
Qed.

(** No operation brings a stopped stub back. *)
Lemma step_stays_stopped (o : op) (w : World) :
  _map w = None -> _map (snd (step cls o w)) = None.
Proof.
  intros Hmap. destruct o as [n|c a k|[tr|]]; unfold step.
  - rewrite getattr_spec. simpl. exact Hmap.
  - unfold_stub. rewrite Hmap. simpl.
    destruct (heap w !! result_future c) as [[| |]|]; simpl;
      rewrite ?Hmap; reflexivity.
  - simpl. unfold_stub. rewrite Hmap. simpl. rewrite ?Hmap. reflexivity.
  - simpl. unfold_stub. rewrite Hmap. simpl. rewrite ?Hmap. reflexivity.
Qed.

Lemma run_stays_stopped (ops : list op) :
  forall w : World, _map w = None -> _map (snd (run cls ops w)) = None.
Proof.
  induction ops as [|o ops IH]; intros w Hmap; simpl; [exact Hmap|].
  pose proof (step_stays_stopped o w Hmap) as H1.
  destruct (step cls o w) as [cs w1]. simpl in H1.
  pose proof (IH w1 H1) as H2.
  destruct (run cls ops w1) as [cs' w2]. exact H2.
Qed.

(** [pump_stop] on a live stub whose pending futures are distinct and not
    yet done. *)
Lemma pump_stop_live (w : World) (d : Dict.t) :
  _map w = Some d ->
  NoDup (map snd d) ->
  (forall kv, kv ∈ d -> heap w !! snd kv = Some Pending) ->
  exists h',
    pump_stop w =
      (Ok tt,
       {| heap := h'; _msgid := _msgid w; _map := None; _pipe := _pipe w;
          trace := trace w ++ [Acquire _lock] ++
            map (fun kv => SetException (snd kv) (PyExc CancelledError)) d
            ++ [MapNone; Release _lock] |}) /\
    (forall kv, kv ∈ d ->
       h' !! snd kv = Some (Failed (PyExc CancelledError))) /\
    (forall f, f ∉ map snd d -> h' !! f = heap w !! f).
Proof.
  intros Hmap Hnd Hpend.
  destruct (cancel_each d (log (Acquire _lock) w) Hnd Hpend)
    as (h' & Hrun & _ & Hc & Ho).
  exists h'. split; [|split; [exact Hc | exact Ho]].
  unfold pump_stop, with_lock, finally, bind at 1, map_items.
  simpl. rewrite Hmap. unfold bind at 1. rewrite Hrun.
  unfold map_assign_None, log, set_map. simpl.
  rewrite <- !app_assoc. reflexivity.
Qed.

(** C3, as the code has it.  When the pump of a live stub receives the
    poison pill, with the futures of the map distinct and not yet done (as
    they are whenever every call is written [stub.n(...)]), it leaves its
    loop and, between one acquisition and one release of [self._lock], fails every
    future of the map with [CancelledError], in the order of the map, and
    then sets the map to [None].  The stub stays stopped whatever happens
    next, and every later call [stub.n(...)], like every later call of a
    closure whose future is not yet done, returns at once a future failed
    with [CancelledError], with nothing sent and nothing registered. *)
Theorem poison_pill_cancels_and_stops (w : World) (d : Dict.t)
    (rest : list (option TaskResult)) :
  _map w = Some d ->
  NoDup (map snd d) ->
  (forall kv, kv ∈ d -> heap w !! snd kv = Some Pending) ->
  exists w',
    _msg_pump (None :: rest) w = (Ok Exited, w') /\
    _map w' = None /\
    _pipe w' = _pipe w /\
    _msgid w' = _msgid w /\
    trace w' = trace w ++ [Acquire _lock] ++
      map (fun kv => SetException (snd kv) (PyExc CancelledError)) d
      ++ [MapNone; Release _lock] /\
    (forall kv, kv ∈ d ->
       heap w' !! snd kv = Some (Failed (PyExc CancelledError))) /\
    (forall f, f ∉ map snd d -> heap w' !! f = heap w !! f) /\
    (forall (ops : list op) (n : string) (args : list pyval)
            (kwargs : list (string * pyval)),
       let w2 := snd (run cls ops w') in
       exists w3,
         call_method cls n args kwargs w2 = (Ok (length (heap w2)), w3) /\
         heap w3 !! length (heap w2)
           = Some (Failed (PyExc CancelledError)) /\
         _pipe w3 = _pipe w2 /\
         _map w3 = None) /\
    (forall (ops : list op) (c : closure) (args : list pyval)
            (kwargs : list (string * pyval)),
       let w2 := snd (run cls ops w') in
       heap w2 !! result_future c = Some Pending ->
       exists w3,
         remote_call cls c args kwargs w2 = (Ok (result_future c), w3) /\
         heap w3 !! result_future c
           = Some (Failed (PyExc CancelledError)) /\
         _pipe w3 = _pipe w2 /\
         _map w3 = None).
Proof.
  intros Hmap Hnd Hpend.
  destruct (pump_stop_live w d Hmap Hnd Hpend) as (h' & Hrun & Hc & Ho).
  eexists. split.
  { simpl. unfold bind at 1. rewrite Hrun. unfold ret. reflexivity. }
  simpl. repeat (split; [reflexivity|]).
  split; [exact Hc|]. split; [exact Ho|]. split.
  - intros ops n a k.
    match goal with |- context [run cls ops ?x] =>
      set (w2 := snd (run cls ops x)) end.
    assert (Hstop : _map w2 = None)
      by (apply run_stays_stopped; reflexivity).
    destruct (call_method_spec w2 n a k) as (w3 & Hcall & _ & Hrest).
    rewrite Hstop in Hrest. destruct Hrest as (Hm3 & Hp3 & Hh3).
    exists w3. split; [exact Hcall|]. split; [|split; assumption].
    rewrite Hh3. apply lookup_snoc_Some. right. split; reflexivity.
  - intros ops c a k.
    match goal with |- context [run cls ops ?x] =>
      set (w2 := snd (run cls ops x)) end.
    intros Hp2.
    assert (Hstop : _map w2 = None)
      by (apply run_stays_stopped; reflexivity).
    rewrite (remote_call_stopped w2 c a k Hstop Hp2).
    eexists. split; [reflexivity|]. simpl.
    split; [|split; reflexivity].
    apply list_lookup_insert_eq. apply lookup_lt_Some in Hp2. exact Hp2.
Qed.

(** *** The map stays well formed under plain calls *)

Lemma delitem_sublist (k : Z) (d : Dict.t) :
  sublist (Dict.delitem k d) d.
Proof.
  induction d as [|[k' v] d IH]; simpl; [constructor|].
  destruct (Z.eqb k k'); [apply sublist_cons | apply sublist_skip];
    exact IH.
Qed.

Lemma same_future_same_key (d : Dict.t) (k1 k2 : Z) (f : fut) :
  NoDup (map snd d) -> (k1, f) ∈ d -> (k2, f) ∈ d -> k1 = k2.
Proof.
  induction d as [|[k v] d IH]; simpl; intros Hnd H1 H2.
  - inversion H1.
  - apply NoDup_cons in Hnd as [Hv Hnd].
    apply elem_of_cons in H1 as [H1|H1];
      apply elem_of_cons in H2 as [H2|H2].
    + congruence.
    + injection H1 as -> ->. exfalso. apply Hv.
      apply list_elem_of_fmap. exists (k2, v). auto.
    + injection H2 as -> ->. exfalso. apply Hv.
      apply list_elem_of_fmap. exists (k1, v). auto.
    + exact (IH Hnd H1 H2).
Qed.

Lemma map_ok_init : map_ok __init__.
Proof.
  unfold map_ok. simpl. repeat split; try constructor;
    intros; exfalso; eapply not_elem_of_nil; eassumption.
Qed.

Lemma map_ok_log (e : event) (w : World) : map_ok w -> map_ok (log e w).
Proof. unfold map_ok. simpl. auto. Qed.

Lemma map_ok_call (w : World) (n : string) (args : list pyval)
    (kwargs : list (string * pyval)) :
  map_ok w -> map_ok (snd (call_method cls n args kwargs w)).
Proof.
  intros Hok.
  destruct (call_method_spec w n args kwargs) as (w' & Hcall & Hid & Hrest).
  rewrite Hcall. simpl. unfold map_ok in *.
  destruct (_map w) as [d|].
  - destruct Hrest as (Hm & _ & Hh). destruct Hok as (Hk & Hf & Hin).
    assert (Hfresh : _msgid w ∉ map fst d).
    { intros Hc. apply list_elem_of_fmap in Hc as (kv & Hkv & Hc).
      destruct (Hin kv Hc) as [Hlt _]. lia. }
    assert (Hnew : length (heap w) ∉ map snd d).
    { intros Hc. apply list_elem_of_fmap in Hc as (kv & Hkv & Hc).
      destruct (Hin kv Hc) as [_ Hp]. apply lookup_lt_Some in Hp. lia. }
    rewrite Hm, (setitem_fresh _ _ _ Hfresh), !map_app. simpl.
    split; [|split].
    + apply NoDup_app. split; [exact Hk|]. split.
      * intros x Hx Hx'. apply list_elem_of_singleton in Hx'.
        subst x. exact (Hfresh Hx).
      * apply NoDup_singleton.
    + apply NoDup_app. split; [exact Hf|]. split.
      * intros x Hx Hx'. apply list_elem_of_singleton in Hx'.
        subst x. exact (Hnew Hx).
      * apply NoDup_singleton.
    + intros kv Hkv. rewrite Hid, Hh.
      apply elem_of_app in Hkv as [Hkv|Hkv].
      * destruct (Hin kv Hkv) as [Hlt Hp]. split; [lia|].
        rewrite lookup_app_l; [exact Hp|].
        apply lookup_lt_Some in Hp. exact Hp.
      * apply list_elem_of_singleton in Hkv. subst kv. simpl.
        split; [lia | apply lookup_fresh_future].
  - destruct Hrest as (Hm & _). rewrite Hm. exact I.
Qed.

Lemma map_ok_receive (w : World) (msg : option TaskResult) :
  map_ok w -> map_ok (snd (_msg_pump [msg] w)).
Proof.
  intros Hok. destruct msg as [tr|]; simpl.
  - destruct (_map w) as [d|] eqn:Hmap.
    + destruct (Dict.getitem (result_msgid tr) d) as [f|] eqn:Hget.
      * pose proof Hok as Hok'. unfold map_ok in Hok'. rewrite Hmap in Hok'.
        destruct Hok' as (Hk & Hf & Hin).
        pose proof (getitem_Some_elem _ _ _ Hget) as Hel.
        destruct (Hin _ Hel) as [_ Hp]. simpl in Hp.
        unfold bind at 1.
        rewrite (pump_result_known w tr d f Hmap Hget Hp).
        unfold ret, map_ok. simpl.
        pose proof (delitem_sublist (result_msgid tr) d) as Hsub.
        split; [|split].
        -- eapply sublist_NoDup; [exact Hk | apply (fmap_sublist fst); exact Hsub].
        -- eapply sublist_NoDup; [exact Hf | apply (fmap_sublist snd); exact Hsub].
        -- intros [k0 f0] Hkv. apply elem_delitem in Hkv as [Hne Hkv].
           destruct (Hin _ Hkv) as [Hlt Hp0]. simpl in *.
           split; [exact Hlt|].
           rewrite list_lookup_insert_ne; [exact Hp0|].
           intros ->. apply Hne.
           exact (same_future_same_key d _ _ _ Hf Hkv Hel).
      * pose proof (pump_result_unknown w tr d [] Hmap Hget) as Hu.
        simpl in Hu. rewrite Hu. simpl.
        apply (map_ok_log (Release _lock)), (map_ok_log (Acquire _lock)).
        exact Hok.
    + unfold_stub. rewrite Hmap. simpl. unfold map_ok. simpl.
      rewrite ?Hmap. exact I.
  - destruct (_map w) as [d|] eqn:Hmap.
    + pose proof Hok as Hok'. unfold map_ok in Hok'. rewrite Hmap in Hok'.
      destruct Hok' as (Hk & Hf & Hin).
      destruct (pump_stop_live w d Hmap Hf (fun kv H => proj2 (Hin kv H)))
        as (h' & Hrun & _).
      unfold bind at 1. rewrite Hrun. exact I.
    + unfold_stub. rewrite Hmap. simpl. unfold map_ok. simpl.
      rewrite ?Hmap. exact I.
Qed.

(** Every state that plain calls and deliveries reach from a new stub has
    a well-formed map: there the pump can count on pending, distinct
    futures. *)
Lemma map_ok_reachable (ops : list plain_op) :
  forall w : World, map_ok w -> map_ok (plain_run cls ops w).
Proof.
  induction ops as [|[n a k|msg] ops IH]; intros w Hok; simpl.
  - exact Hok.
  - apply IH, map_ok_call, Hok.
  - apply IH, map_ok_receive, Hok.
Qed.

(** *** The counter *)

Lemma set_exception_msgid (f : fut) (e : pyval) (w : World) :
  _msgid (snd (set_exception f e w)) = _msgid w.
Proof.
  unfold set_exception. destruct (heap w !! f) as [[| |]|]; reflexivity.
Qed.

Lemma set_result_msgid (f : fut) (v : pyval) (w : World) :
  _msgid (snd (set_result f v w)) = _msgid w.
Proof.
  unfold set_result. destruct (heap w !! f) as [[| |]|]; reflexivity.
Qed.

Lemma bind_msgid {A B} (m : M World A) (k : A -> M World B) :
  (forall w, _msgid (snd (m w)) = _msgid w) ->
  (forall a w, _msgid (snd (k a w)) = _msgid w) ->
  forall w, _msgid (snd (bind m k w)) = _msgid w.
Proof.
  intros Hm Hk w. unfold bind. specialize (Hm w).
  destruct (m w) as [[a|e] w1]; simpl in *; [|exact Hm].
  rewrite Hk. exact Hm.
Qed.

Lemma with_lock_msgid {A} (l : lock) (body : M World A) :
  (forall w, _msgid (snd (body w)) = _msgid w) ->
  forall w, _msgid (snd (with_lock l body w)) = _msgid w.
Proof.
  intros Hb w. unfold with_lock, finally.
  specialize (Hb (log (Acquire l) w)).
  destruct (body (log (Acquire l) w)) as [r w1]. simpl in *. exact Hb.
Qed.

Lemma for_each_msgid {A} (l : list A) (body : A -> M World unit) :
  (forall a w, _msgid (snd (body a w)) = _msgid w) ->
  forall w, _msgid (snd (for_each l body w)) = _msgid w.
Proof.
  intros Hb. induction l as [|a l IH]; simpl; [reflexivity|].
  apply bind_msgid; [apply Hb | intros _; exact IH].
Qed.

Lemma map_getitem_msgid (k : Z) (w : World) :
  _msgid (snd (map_getitem k w)) = _msgid w.
Proof.
  unfold map_getitem. destruct (_map w) as [d|]; [|reflexivity].
  destruct (Dict.getitem k d); reflexivity.
Qed.

Lemma map_delitem_msgid (k : Z) (w : World) :
  _msgid (snd (map_delitem k w)) = _msgid w.
Proof.
  unfold map_delitem. destruct (_map w) as [d|]; [|reflexivity].
  destruct (Dict.getitem k d); reflexivity.
Qed.

Lemma map_items_msgid (w : World) :
  _msgid (snd (map_items w)) = _msgid w.
Proof. unfold map_items. destruct (_map w); reflexivity. Qed.

Lemma remote_call_msgid (c : closure) (args : list pyval)
    (kwargs : list (string * pyval)) (w : World) :
  _msgid (snd (remote_call cls c args kwargs w)) = _msgid w.
Proof.
  destruct (_map w) as [d|] eqn:Hmap.
  - rewrite (remote_call_live w c args kwargs d Hmap). reflexivity.
  - unfold_stub. rewrite Hmap. simpl.
    destruct (heap w !! result_future c) as [[| |]|]; reflexivity.
Qed.

Lemma pump_msgid (msg : option TaskResult) (w : World) :
  _msgid (snd (_msg_pump [msg] w)) = _msgid w.
Proof.
  destruct msg as [tr|]; simpl.
  - apply bind_msgid; [|reflexivity].
    apply with_lock_msgid, bind_msgid; [apply map_getitem_msgid|].
    intros f. apply bind_msgid; [apply map_delitem_msgid|].
    intros _ w1. destruct (success tr);
      [apply set_result_msgid | apply set_exception_msgid].
  - apply bind_msgid; [|reflexivity].
    apply with_lock_msgid, bind_msgid; [apply map_items_msgid|].
    intros items. apply bind_msgid; [|reflexivity].
    apply for_each_msgid. intros kv. apply set_exception_msgid.
Qed.

(** An access hands out one closure, with the current value of the
    counter, and advances the counter by one; nothing else moves it. *)
Lemma step_counter (o : op) (w : World) :
  match fst (step cls o w) with
  | [] => _msgid (snd (step cls o w)) = _msgid w
  | [c] => call_msgid c = _msgid w /\
           _msgid (snd (step cls o w)) = (_msgid w + 1)%Z
  | _ => False
  end.
Proof.
  destruct o as [n|c a k|msg]; unfold step.
  - rewrite getattr_spec. simpl. auto.
  - simpl. apply remote_call_msgid.
  - simpl fst. simpl snd. apply pump_msgid.
Qed.

(** The closures handed out along any run carry the successive values
    of the counter. *)
Lemma run_counter (ops : list op) :
  forall w : World,
    map call_msgid (fst (run cls ops w)) =
      map (fun i => (_msgid w + Z.of_nat i)%Z)
        (seq 0 (length (fst (run cls ops w)))) /\
    _msgid (snd (run cls ops w)) =
      (_msgid w + Z.of_nat (length (fst (run cls ops w))))%Z.
Proof.
  induction ops as [|o ops IH]; intros w; simpl.
  - split; [reflexivity | lia].
  - pose proof (step_counter o w) as Hstep.
    destruct (step cls o w) as [cs w1]. simpl in Hstep.
    destruct (IH w1) as [Hids Hcnt].
    destruct (run cls ops w1) as [cs' w2]. simpl in *.
    destruct cs as [|c [|c' cs]]; [| |contradiction].
    + simpl. rewrite Hids, Hcnt, Hstep. auto.
    + destruct Hstep as [Hc Hw1]. simpl. split.
      * rewrite Hc, Hids, Hw1, <- fmap_S_seq. f_equal; [lia|].
        rewrite <- list_fmap_compose. apply list_fmap_ext.
        intros i x _. simpl. lia.
      * rewrite Hcnt, Hw1. lia.
Qed.

Lemma consecutive_sorted (a : Z) (n : nat) :
  forall s : nat,
    StronglySorted Z.lt (map (fun i => (a + Z.of_nat i)%Z) (seq s n)).
Proof.
  induction n as [|n IH]; intros s; simpl; constructor.
  - apply IH.
  - apply Forall_forall. intros x Hx.
    apply list_elem_of_fmap in Hx as (i & -> & Hi).
    apply elem_of_seq in Hi. lia.
Qed.

(** C4, as the code has it.  Along any sequence of attribute accesses,
    calls of closures and deliveries to the pump on one stub, the closure
    returned by the i-th access carries the msgid (counter at the start) + i:
    the msgids taken by the accesses are strictly increasing, and two
    closures that come from different accesses never carry the same msgid.
    A call sends the msgid of its closure, so the calls made through one
    closure all share it. *)
Theorem msgids_of_accesses_increase (ops : list op) (w : World) :
  let cs := fst (run cls ops w) in
  (forall i c, cs !! i = Some c ->
     call_msgid c = (_msgid w + Z.of_nat i)%Z) /\
  StronglySorted Z.lt (map call_msgid cs) /\
  (forall i j c1 c2,
     cs !! i = Some c1 -> cs !! j = Some c2 -> i <> j ->
     call_msgid c1 <> call_msgid c2) /\
  _msgid (snd (run cls ops w)) = (_msgid w + Z.of_nat (length cs))%Z /\
  (forall (c : closure) (args : list pyval) (kwargs : list (string * pyval))
          (w1 : World) (d : Dict.t),
     _map w1 = Some d ->
     sent_msgids (snd (remote_call cls c args kwargs w1)) =
       sent_msgids w1 ++ [call_msgid c]).
Proof.
  intros cs. destruct (run_counter ops w) as [Hids Hcnt]. fold cs in Hids.
  assert (Hith : forall i c, cs !! i = Some c ->
            call_msgid c = (_msgid w + Z.of_nat i)%Z).
  { intros i c Hi.
    assert (H : map call_msgid cs !! i = Some (call_msgid c))
      by (rewrite list_lookup_fmap, Hi; reflexivity).
    rewrite Hids, list_lookup_fmap in H.
    rewrite lookup_seq_lt in H by (apply lookup_lt_Some in Hi; exact Hi).
    simpl in H. congruence. }
  split; [exact Hith|]. split; [|split].
  - rewrite Hids. apply consecutive_sorted.
  - intros i j c1 c2 H1 H2 Hne.
    rewrite (Hith i c1 H1), (Hith j c2 H2). lia.
  - split; [exact Hcnt|]. intros c a k w1 d Hmap.
    rewrite (remote_call_live w1 c a k d Hmap). unfold sent_msgids. simpl.
    rewrite map_app. reflexivity.
Qed.
End StubFacts.



(** The pump of the stub that waits for [stub.echo(5)] receives the poison
    pill. *)
Lemma poison_pill_cancels_and_stops_witness :
  exists w',
    Stub._msg_pump [None] Sample.one_pending = (Ok Stub.Exited, w') /\
    Stub._map w' = None /\
    Stub.heap w' !! 0 = Some (Failed (PyExc CancelledError)).
Proof.
  assert (Hnd : NoDup (map snd [(0%Z, 0)])) by apply NoDup_singleton.
  assert (Hp : forall kv : Z * fut, kv ∈ [(0%Z, 0)] ->
            Stub.heap Sample.one_pending !! snd kv = Some Pending).
  { intros kv H. apply list_elem_of_singleton in H. subst kv. reflexivity. }
  destruct (poison_pill_cancels_and_stops Sample.cls Sample.one_pending
              [(0%Z, 0)] [] eq_refl Hnd Hp)
    as (w' & Hrun & Hm & _ & _ & _ & Hc & _).
  exists w'. split; [exact Hrun|]. split; [exact Hm|].
  apply (Hc (0%Z, 0)). left.
Defined.

(** [f = stub.echo; f(1); f(2)] on a new stub. *)
Lemma access_allocates_calls_reuse_witness :
  exists w2,
    Stub.invoke_each Sample.cls Sample.first_closure
      [([PyInt 1], []); ([PyInt 2], [])]
      (snd (Stub.__getattr__ "echo" Stub.__init__)) = (Ok [0; 0], w2) /\
    map msgid (Stub._pipe w2) = [0; 0]%Z /\
    Stub._msgid w2 = 1%Z /\
    Stub.heap w2 = [Pending].
Proof.
  destruct (access_allocates_calls_reuse Sample.cls Stub.__init__
              (snd (Stub.__getattr__ "echo" Stub.__init__)) "echo" []
              [([PyInt 1], []); ([PyInt 2], [])] eq_refl)
    as (_ & w2 & Hrun & Hid & Hheap & Hids & _).
  exists w2. split; [exact Hrun|]. split; [exact Hids|].
  split; [exact Hid | exact Hheap].
Defined.

(** The same closure called twice on a live stub: two tasks are in flight,
    unanswered, under the one msgid 0, so the msgids of the calls made are
    not strictly increasing. *)
Lemma reused_closure_repeats_msgid :
  fst Sample.called_twice = [Sample.first_closure] /\
  Stub.sent_msgids (snd Sample.called_twice) = [0; 0]%Z /\
  Stub._map (snd Sample.called_twice) = Some [(0%Z, 0)] /\
  Stub.heap (snd Sample.called_twice) = [Pending] /\
  ~ StronglySorted Z.lt (Stub.sent_msgids (snd Sample.called_twice)).
Proof.
  repeat (split; [reflexivity|]).
  change (Stub.sent_msgids (snd Sample.called_twice)) with [0; 0]%Z.
  intros H. inversion H as [|a l _ Hall]; subst.
  inversion Hall as [|b l' Hlt _]; subst. lia.
Qed.

(** ** The worker *)

Section WorkerFacts.
Import Worker.
Context {Obj : Type}.
Variable cls : worker_class Obj.

(** The [TaskResult] that reports how a call ended. *)
Lemma urgent_dispatch (task : Task) (s : State) (m : method Obj) :
  is_urgent task = true ->
  attribute cls (func_name task) = Some m ->
  dispatch cls task s =
    (Ok tt,
     {| obj := snd (m (args task) (kwargs task) (obj s));
        sent := sent s ++
          [match fst (m (args task) (kwargs task) (obj s)) with
           | Returns v =>
               {| result_msgid := msgid task; success := true; value := v |}
           | Throws e =>
               {| result_msgid := msgid task; success := false;
                  value := PyExc e |}
           end];
        pool := pool s;
        logged := logged s |}).
Proof.
  intros Hu Hm. unfold dispatch, bind at 1, getattr. rewrite Hm.
  unfold ret. rewrite Hu. unfold try_except, bind, call, send, set_obj.
  destruct (m (args task) (kwargs task) (obj s)) as [[v|e] o];
    reflexivity.
Qed.

(** C5, as the code has it.  A task whose method name is no attribute of
    the hosted object makes [getattr] raise [AttributeError] outside every
    [try]: the loop of [_run_impl] ends there, no [TaskResult] is sent for
    the task, the tasks behind it are not served, and [_run] logs the
    error and raises it again. *)
Theorem unknown_method_ends_the_loop (task : Task) (rest : list Task)
    (s : State) :
  attribute cls (func_name task) = None ->
  _run_impl cls (task :: rest) s =
    (Raise (AttributeError (func_name task)), s) /\
  _run cls (task :: rest) s =
    (Raise (AttributeError (func_name task)),
     {| obj := obj s; sent := sent s; pool := pool s;
        logged := logged s ++ [AttributeError (func_name task)] |}).
Proof.
  intros Hnone.
  assert (H : _run_impl cls (task :: rest) s =
              (Raise (AttributeError (func_name task)), s)).
  { simpl. unfold bind at 1, dispatch, bind at 1, getattr.
    rewrite Hnone. reflexivity. }
  split; [exact H|].
  unfold _run, try_except. rewrite H. reflexivity.
Qed.

(** C6.  An urgent task whose method exists is run by the loop itself,
    before the next task is received and without touching the executor:
    exactly one [TaskResult] with the msgid of the task is sent, successful
    with the returned value if the method returns, failed with the
    exception if it raises; either way the loop goes on with the tasks
    that follow. *)
Theorem urgent_task_runs_inline (task : Task) (rest : list Task)
    (s : State) (m : method Obj) :
  is_urgent task = true ->
  attribute cls (func_name task) = Some m ->
  let reply :=
    match fst (m (args task) (kwargs task) (obj s)) with
    | Returns v =>
        {| result_msgid := msgid task; success := true; value := v |}
    | Throws e =>
        {| result_msgid := msgid task; success := false;
           value := PyExc e |}
    end in
  let s' :=
    {| obj := snd (m (args task) (kwargs task) (obj s));
       sent := sent s ++ [reply];
       pool := pool s;
       logged := logged s |} in
  dispatch cls task s = (Ok tt, s') /\
  _run_impl cls (task :: rest) s = _run_impl cls rest s' /\
  _run cls (task :: rest) s = _run cls rest s'.
Proof.
  intros Hu Hm reply s'.
  pose proof (urgent_dispatch task s m Hu Hm) as Hd.
  fold reply in Hd. fold s' in Hd.
  split; [exact Hd|].
  assert (H : _run_impl cls (task :: rest) s = _run_impl cls rest s').
  { simpl. unfold bind at 1. rewrite Hd. reflexivity. }
  split; [exact H|]. unfold _run, try_except. rewrite H. reflexivity.
Qed.
End WorkerFacts.

(** The worker that hosts [Sample.cls] receives a task for [nope]: nothing
    is sent, the loop is over. *)
Lemma unknown_method_ends_the_loop_witness :
  Worker._run_impl Sample.cls [Sample.no_such_method]
    (Worker.start Sample.cls [] []) =
    (Raise (AttributeError "nope"), Worker.start Sample.cls [] []).
Proof.
  exact (proj1 (unknown_method_ends_the_loop Sample.cls Sample.no_such_method
                  [] (Worker.start Sample.cls [] []) eq_refl)).
Defined.

(** No failed [TaskResult] is delivered for a task that names a method the
    hosted object does not have: the loop raises, and what it has sent is
    empty. *)
Lemma unknown_method_sends_nothing :
  fst (Worker._run Sample.cls [Sample.no_such_method]
         (Worker.start Sample.cls [] [])) = Raise (AttributeError "nope") /\
  Worker.sent (snd (Worker._run Sample.cls [Sample.no_such_method]
                      (Worker.start Sample.cls [] []))) = [] /\
  ~ (exists v,
       In {| result_msgid := 0; success := false; value := v |}
         (Worker.sent (snd (Worker._run Sample.cls [Sample.no_such_method]
                              (Worker.start Sample.cls [] []))))).
Proof.
  split; [reflexivity|]. split; [reflexivity|].
  intros [v H]. exact H.
Qed.

(** The urgent [boom] raises: a failed result with its msgid, and the loop
    is back in [recv]. *)
Lemma urgent_task_runs_inline_witness :
  Worker._run_impl Sample.cls [Sample.urgent_boom]
    (Worker.start Sample.cls [] []) =
    (Ok Worker.Receiving,
     {| Worker.obj := 1;
        Worker.sent := [{| result_msgid := 7; success := false;
                           value := PyExc (Exception "x") |}];
        Worker.pool := [];
        Worker.logged := [] |}).
Proof.
  destruct (urgent_task_runs_inline Sample.cls Sample.urgent_boom []
              (Worker.start Sample.cls [] []) Sample.boom eq_refl eq_refl)
    as (_ & H & _).
  exact H.
Defined.

(** ** The pool *)

Section PoolFacts.
Import Pool.
Variable cpu_count : Z.
Variable kill_raises : stub -> option exn.

(** The list comprehension of [__init__]: one new stub per element. *)
Lemma make_stubs {A} (l : list A) :
  forall w : World,
    comprehension l (fun _ => _make_stub) w =
      (Ok (seq (created w) (length l)),
       {| created := created w + length l;
          events := events w ++ map Start (seq (created w) (length l)) |}).
Proof.
  induction l as [|x l IH]; intros w; simpl.
  - unfold ret. rewrite Nat.add_0_r, app_nil_r. destruct w; reflexivity.
  - unfold bind at 1, _make_stub at 1. unfold bind at 1.
    rewrite IH. unfold ret. simpl. rewrite <- app_assoc, Nat.add_succ_r.
    reflexivity.
Qed.

Lemma length_range (n : Z) : length (range n) = Z.to_nat n.
Proof. unfold range. rewrite length_map, length_seq. reflexivity. Qed.

(** [shutdown] returns normally whether or not [kill()] raises. *)
Lemma shutdown_spec (s : stub) (w : World) :
  shutdown kill_raises s w =
    (Ok tt, {| created := created w; events := events w ++ [Kill s] |}).
Proof.
  unfold shutdown, try_except, process_kill, bind, log, ret, raise.
  destruct (kill_raises s); reflexivity.
Qed.

Lemma shutdown_pass (l : list stub) :
  forall w : World,
    for_each l (shutdown kill_raises) w =
      (Ok tt,
       {| created := created w; events := events w ++ map Kill l |}).
Proof.
  induction l as [|s l IH]; intros w; simpl.
  - unfold ret. rewrite app_nil_r. destruct w; reflexivity.
  - unfold bind at 1. rewrite shutdown_spec, IH. simpl.
    rewrite <- app_assoc. reflexivity.
Qed.

Lemma join_pass (l : list stub) :
  forall w : World,
    for_each l join w =
      (Ok tt,
       {| created := created w;
          events := events w ++
            flat_map (fun s => [JoinObserver s; JoinPump s; JoinProcess s])
              l |}).
Proof.
  induction l as [|s l IH]; intros w; simpl.
  - unfold ret. rewrite app_nil_r. destruct w; reflexivity.
  - unfold bind at 1. unfold join at 1, bind, log. rewrite IH. simpl.
    rewrite <- !app_assoc. reflexivity.
Qed.

(** Leaving the scope: every kill, then every join, and no exception. *)
Lemma exit_spec (self : LocalWorkerPool) (w : World) :
  __exit__ kill_raises self w =
    (Ok tt,
     {| created := created w;
        events := events w ++ map Kill (_stubs self) ++
          flat_map (fun s => [JoinObserver s; JoinPump s; JoinProcess s])
            (_stubs self) |}).
Proof.
  unfold __exit__, bind. rewrite shutdown_pass, join_pass. simpl.
  rewrite <- app_assoc. reflexivity.
Qed.

(** What [__init__] builds, for any [count]. *)
Lemma init_spec (count : option Z) (w : World) :
  let n := Z.to_nat (if not_ count then cpu_count else default 0%Z count) in
  __init__ cpu_count count w =
    (Ok {| _stubs := seq (created w) n |},
     {| created := created w + n;
        events := events w ++ map Start (seq (created w) n) |}).
Proof.
  intros n. unfold __init__, bind. rewrite make_stubs, length_range.
  reflexivity.
Qed.

(** C7.  A pool built with a positive count [K] holds exactly [K] stubs,
    all different, created in order; entering the scope returns that list;
    leaving it calls [shutdown] on each of the [K] stubs, in order, and
    only after the last of these calls [join] on each of them, in order. *)
Theorem pool_of_K_stubs (K : Z) (w : World) :
  (0 < K)%Z ->
  exists self w1,
    __init__ cpu_count (Some K) w = (Ok self, w1) /\
    Z.of_nat (length (_stubs self)) = K /\
    NoDup (_stubs self) /\
    _stubs self = seq (created w) (Z.to_nat K) /\
    events w1 = events w ++ map Start (_stubs self) /\
    __enter__ self w1 = (Ok (_stubs self), w1) /\
    forall w2 : World,
      __exit__ kill_raises self w2 =
        (Ok tt,
         {| created := created w2;
            events := events w2 ++ map Kill (_stubs self) ++
              flat_map (fun s => [JoinObserver s; JoinPump s; JoinProcess s])
                (_stubs self) |}).
Proof.
  intros HK. pose proof (init_spec (Some K) w) as Hinit. simpl in Hinit.
  assert (Hnz : Z.eqb K 0 = false) by (apply Z.eqb_neq; lia).
  rewrite Hnz in Hinit. simpl in Hinit.
  eexists. eexists. split; [exact Hinit|]. simpl.
  split; [rewrite length_seq; lia|].
  split; [apply NoDup_seq|].
  split; [reflexivity|]. split; [reflexivity|].
  split; [reflexivity|]. intros w2. apply exit_spec.
Qed.

(** C9.  [shutdown] never raises: whatever [kill()] does, the call
    returns normally after the one attempt.  Hence leaving the scope of a
    pool never stops half-way: whichever kills fail, [shutdown] is called
    on every stub and then [join] is called on every stub. *)
Theorem shutdown_never_raises (s : stub) (self : LocalWorkerPool)
    (w : World) :
  shutdown kill_raises s w =
    (Ok tt, {| created := created w; events := events w ++ [Kill s] |}) /\
  __exit__ kill_raises self w =
    (Ok tt,
     {| created := created w;
        events := events w ++ map Kill (_stubs self) ++
          flat_map (fun s => [JoinObserver s; JoinPump s; JoinProcess s])
            (_stubs self) |}).
Proof. split; [apply shutdown_spec | apply exit_spec]. Qed.

(** C10, as the code has it.  On a host with at least one CPU, a pool
    built with [count] 0 or [None] holds as many stubs as the host has
    CPUs, so it is not empty; built with a positive [count] it holds
    exactly that many; built with a negative [count] it is empty. *)
Theorem pool_size (count : option Z) (w : World) :
  (0 < cpu_count)%Z ->
  exists self w1,
    __init__ cpu_count count w = (Ok self, w1) /\
    (count = None \/ count = Some 0%Z ->
     Z.of_nat (length (_stubs self)) = cpu_count /\ _stubs self <> []) /\
    (forall k, count = Some k -> (0 < k)%Z ->
     Z.of_nat (length (_stubs self)) = k) /\
    (forall k, count = Some k -> (k < 0)%Z -> _stubs self = []).
Proof.
  intros Hcpu. pose proof (init_spec count w) as Hinit. simpl in Hinit.
  eexists. eexists. split; [exact Hinit|]. simpl.
  split; [|split].
  - intros Hzero.
    assert (Hn : not_ count = true) by (destruct Hzero; subst; reflexivity).
    rewrite Hn. split.
    + rewrite length_seq. lia.
    + destruct (Z.to_nat cpu_count) eqn:E; [lia | discriminate].
  - intros k -> Hk. simpl.
    assert (Hnz : Z.eqb k 0 = false) by (apply Z.eqb_neq; lia).
    rewrite Hnz, length_seq. lia.
  - intros k -> Hk. simpl.
    assert (Hnz : Z.eqb k 0 = false) by (apply Z.eqb_neq; lia).
    rewrite Hnz. replace (Z.to_nat k) with 0 by lia. reflexivity.
Qed.
End PoolFacts.

(** A pool of three: the third kill raises, and still every stub is
    killed and then joined. *)
Lemma pool_of_K_stubs_witness :
  exists self w1,
    Pool.__init__ 8 (Some 3%Z) Sample.no_pool = (Ok self, w1) /\
    Pool._stubs self = [0; 1; 2] /\
    Pool.__exit__ (fun s => if Nat.eqb s 2 then Some TypeError else None)
      self w1 =
      (Ok tt,
       {| Pool.created := Pool.created w1;
          Pool.events := Pool.events w1 ++
            [Pool.Kill 0; Pool.Kill 1; Pool.Kill 2;
             Pool.JoinObserver 0; Pool.JoinPump 0; Pool.JoinProcess 0;
             Pool.JoinObserver 1; Pool.JoinPump 1; Pool.JoinProcess 1;
             Pool.JoinObserver 2; Pool.JoinPump 2; Pool.JoinProcess 2] |}).
Proof.
  destruct (pool_of_K_stubs 8
              (fun s => if Nat.eqb s 2 then Some TypeError else None)
              3 Sample.no_pool eq_refl)
    as (self & w1 & Hinit & _ & _ & Hstubs & _ & _ & Hexit).
  exists self, w1. split; [exact Hinit|]. split; [exact Hstubs|].
  rewrite (Hexit w1), Hstubs. reflexivity.
Defined.

(** On a host with four CPUs, [count = 0] gives four stubs. *)
Lemma pool_size_witness :
  exists self w1,
    Pool.__init__ 4 (Some 0%Z) Sample.no_pool = (Ok self, w1) /\
    Z.of_nat (length (Pool._stubs self)) = 4%Z /\
    Pool._stubs self <> [].
Proof.
  destruct (pool_size 4 (Some 0%Z) Sample.no_pool eq_refl)
    as (self & w1 & Hinit & Hzero & _).
  exists self, w1. split; [exact Hinit|].
  apply Hzero. right. reflexivity.
Defined.

(** [count = -1] is a supplied count other than 0, and the pool does not
    hold -1 stubs: it is empty. *)
Lemma negative_count_gives_empty_pool :
  Pool.__init__ 4 (Some (-1)%Z) Sample.no_pool =
    (Ok {| Pool._stubs := [] |}, Sample.no_pool) /\
  Z.of_nat (length (Pool._stubs {| Pool._stubs := [] |})) <> (-1)%Z.
Proof. split; [reflexivity | discriminate]. Qed.

(** ** The worker, its loop and its executor *)

Section ScheduleFacts.
Import Worker Schedule.
Context {Obj : Type}.
Variable cls : worker_class Obj.

Lemma queued_dispatch (task : Task) (s : State) (m : method Obj) :
  is_urgent task = false ->
  attribute cls (func_name task) = Some m ->
  dispatch cls task s =
    (Ok tt,
     {| obj := obj s; sent := sent s;
        pool := pool s ++ [(msgid task, m (args task) (kwargs task))];
        logged := logged s |}).
Proof.
  intros Hu Hm. unfold dispatch, bind at 1, getattr. rewrite Hm.
  unfold ret. rewrite Hu. reflexivity.
Qed.

(** X1.  A task that is not urgent and whose method exists is not run by
    the loop: the hosted object is untouched, nothing is sent, the call is
    appended to the queue of the executor behind what is already there, and
    the loop goes on with the next task. *)
Theorem non_urgent_task_is_queued (task : Task) (rest : list Task)
    (s : State) (m : method Obj) :
  is_urgent task = false ->
  attribute cls (func_name task) = Some m ->
  let s' :=
    {| obj := obj s; sent := sent s;
       pool := pool s ++ [(msgid task, m (args task) (kwargs task))];
       logged := logged s |} in
  dispatch cls task s = (Ok tt, s') /\
  _run_impl cls (task :: rest) s = _run_impl cls rest s'.
Proof.
  intros Hu Hm s'. pose proof (queued_dispatch task s m Hu Hm) as Hd.
  fold s' in Hd. split; [exact Hd|].
  simpl. unfold bind at 1. rewrite Hd. reflexivity.
Qed.

Lemma pool_run_one_spec (s : @State Obj) :
  pool_run_one s =
    (Ok tt,
     match pool s with
     | [] => s
     | (k, app) :: q =>
         {| obj := snd (app (obj s));
            sent := sent s ++ [reply_of k (fst (app (obj s)))];
            pool := q; logged := logged s |}
     end).
Proof.
  unfold pool_run_one. destruct (pool s) as [|[k app] q]; [reflexivity|].
  unfold call, send, set_obj. simpl.
  destruct (app (obj s)) as [[v|e] o]; reflexivity.
Qed.

Lemma answers_msgids (q : list (Z * @application Obj)) :
  forall o : Obj, map result_msgid (fst (answers o q)) = map fst q.
Proof.
  induction q as [|[k app] q IH]; intros o; simpl; [reflexivity|].
  specialize (IH (snd (app o))).
  destruct (app o) as [out o1]. simpl in IH.
  destruct (answers o1 q) as [rs o2]. simpl in *.
  rewrite IH. destruct out; reflexivity.
Qed.

Lemma drain_queue (q : list (Z * @application Obj)) :
  forall s : State,
    pool s = q ->
    play cls (repeat Execute (length q)) s =
      (Ok tt,
       {| obj := snd (answers (obj s) q);
          sent := sent s ++ fst (answers (obj s) q);
          pool := []; logged := logged s |}).
Proof.
  induction q as [|[k app] q IH]; intros s Hq; simpl.
  - unfold ret. rewrite app_nil_r. destruct s; simpl in *. subst.
    reflexivity.
  - unfold play in *. simpl. unfold bind at 1. simpl.
    rewrite pool_run_one_spec, Hq.
    rewrite IH by reflexivity. simpl.
    destruct (app (obj s)) as [out o1]. simpl.
    destruct (answers o1 q) as [rs o2]. simpl.
    rewrite <- app_assoc. reflexivity.
Qed.

(** X2.  The executor never raises, whatever the submitted calls do: run
    once per queued call, it empties the queue and sends exactly one
    [TaskResult] per call, in the order of submission, each with the msgid
    given at submission, successful with the value returned or failed with
    the exception raised. *)
Theorem executor_answers_in_order (s : @State Obj) :
  play cls (repeat Execute (length (pool s))) s =
    (Ok tt,
     {| obj := snd (answers (obj s) (pool s));
        sent := sent s ++ fst (answers (obj s) (pool s));
        pool := []; logged := logged s |}) /\
  map result_msgid (fst (answers (obj s) (pool s))) = map fst (pool s).
Proof.
  split; [apply drain_queue; reflexivity | apply answers_msgids].
Qed.

(** One turn of a schedule whose task, if any, names an existing method. *)
Lemma play_turn_accounts (t : turn) (s : @State Obj) :
  (forall task, t = Recv task -> attribute cls (func_name task) <> None) ->
  exists s',
    play_turn cls t s = (Ok tt, s') /\
    accounted s' ≡ₚ accounted s ++ received [t] /\
    logged s' = logged s.
Proof.
  intros Hres. destruct t as [task|]; simpl.
  - destruct (attribute cls (func_name task)) as [m|] eqn:Hm;
      [|exfalso; exact (Hres task eq_refl Hm)].
    destruct (is_urgent task) eqn:Hu.
    + rewrite (urgent_dispatch cls task s m Hu Hm).
      eexists. split; [reflexivity|]. split; [|reflexivity].
      unfold accounted. simpl. rewrite map_app. simpl.
      assert (Hid : forall o, result_msgid
                (match o with
                 | Returns v => {| result_msgid := msgid task;
                                   success := true; value := v |}
                 | Throws e => {| result_msgid := msgid task;
                                  success := false; value := PyExc e |}
                 end) = msgid task) by (intros []; reflexivity).
      rewrite Hid, <- !app_assoc. apply Permutation_app_head.
      apply Permutation_app_comm.
    + rewrite (queued_dispatch task s m Hu Hm).
      eexists. split; [reflexivity|]. split; [|reflexivity].
      unfold accounted. simpl. rewrite map_app, app_assoc. reflexivity.
  - rewrite pool_run_one_spec. eexists. split; [reflexivity|].
    rewrite app_nil_r. unfold accounted.
    destruct (pool s) as [|[k app] q] eqn:Hq; simpl;
      [rewrite Hq; split; reflexivity|].
    split; [|reflexivity].
    rewrite map_app, <- app_assoc. simpl.
    destruct (fst (app (obj s))); reflexivity.
Qed.

Lemma play_accounts (ts : list turn) :
  forall s : @State Obj,
    (forall task, Recv task ∈ ts ->
       attribute cls (func_name task) <> None) ->
    exists s',
      play cls ts s = (Ok tt, s') /\
      accounted s' ≡ₚ accounted s ++ received ts /\
      logged s' = logged s.
Proof.
  induction ts as [|t ts IH]; intros s Hres.
  - exists s. unfold play. simpl. unfold ret.
    rewrite app_nil_r. auto.
  - destruct (play_turn_accounts t s) as (s1 & H1 & Hp1 & Hl1).
    { intros task ->. apply Hres. left. }
    destruct (IH s1) as (s' & H2 & Hp2 & Hl2).
    { intros task Hin. apply Hres. right. exact Hin. }
    exists s'. unfold play in *. simpl. unfold bind at 1. rewrite H1.
    split; [exact H2|]. split; [|congruence].
    rewrite Hp2, Hp1, <- app_assoc. apply Permutation_app_head.
    destruct t; reflexivity.
Qed.

(** X3.  Whatever the order in which the loop receives tasks and the
    executor runs queued calls, as long as every task names an existing
    method: the worker never raises and logs nothing, and at every moment
    the msgids answered together with the msgids queued are exactly the
    msgids received (with those it started with), each as often as it was
    received.  Once the executor has emptied its queue, every task received
    has got exactly one [TaskResult]. *)
Theorem every_task_gets_one_result (ts : list turn) (s : @State Obj) :
  (forall task, Recv task ∈ ts -> attribute cls (func_name task) <> None) ->
  exists s' s'',
    play cls ts s = (Ok tt, s') /\
    accounted s' ≡ₚ accounted s ++ received ts /\
    logged s' = logged s /\
    play cls (repeat Execute (length (pool s'))) s' = (Ok tt, s'') /\
    pool s'' = [] /\
    map result_msgid (sent s'') ≡ₚ accounted s ++ received ts.
Proof.
  intros Hres. destruct (play_accounts ts s Hres) as (s' & Hplay & Hp & Hl).
  eexists s', _. split; [exact Hplay|]. split; [exact Hp|].
  split; [exact Hl|]. split; [apply drain_queue; reflexivity|].
  split; [reflexivity|]. simpl.
  rewrite <- Hp. unfold accounted.
  rewrite map_app, answers_msgids. reflexivity.
Qed.

Lemma run_impl_app (pre rest : list Task) :
  forall s s1 : @State Obj,
    _run_impl cls pre s = (Ok Receiving, s1) ->
    _run_impl cls (pre ++ rest) s = _run_impl cls rest s1.
Proof.
  induction pre as [|t pre IH]; intros s s1 Hpre; simpl in *.
  - unfold ret in Hpre. congruence.
  - unfold bind at 1. unfold bind at 1 in Hpre.
    destruct (dispatch cls t s) as [[[]|e] s0]; [|discriminate].
    apply IH. exact Hpre.
Qed.

Lemma run_impl_resolvable (inbox : list Task) :
  forall s : @State Obj,
    Forall (fun t => attribute cls (func_name t) <> None) inbox ->
    exists s',
      _run_impl cls inbox s = (Ok Receiving, s') /\
      logged s' = logged s.
Proof.
  induction inbox as [|t inbox IH]; intros s Hall.
  - exists s. split; reflexivity.
  - apply Forall_cons in Hall as [Ht Hall].
    destruct (play_turn_accounts (Recv t) s) as (s1 & H1 & _ & Hl1).
    { intros task [= <-]. exact Ht. }
    destruct (IH s1 Hall) as (s' & H2 & Hl2).
    exists s'. simpl in *. unfold bind at 1. rewrite H1.
    split; [exact H2 | congruence].
Qed.

(** X4.  Exceptions of hosted methods never reach [_run]: on tasks that all
    name existing methods, urgent or not, [_run] does what [_run_impl]
    does, ends waiting for the next task, and logs nothing. *)
Theorem run_survives_method_errors (inbox : list Task) (s : @State Obj) :
  Forall (fun t => attribute cls (func_name t) <> None) inbox ->
  exists s',
    _run cls inbox s = (Ok Receiving, s') /\
    _run_impl cls inbox s = (Ok Receiving, s') /\
    logged s' = logged s.
Proof.
  intros Hall. destruct (run_impl_resolvable inbox s Hall) as (s' & Hr & Hl).
  exists s'. unfold _run, try_except. rewrite Hr. auto.
Qed.

(** X5.  The first task that names a method the hosted object does not
    have ends the worker: the tasks before it are served as usual, none
    after it is looked at, no result is sent for it, and [_run] logs the
    [AttributeError] once and raises it. *)
Theorem first_unknown_method_ends_worker (pre post : list Task) (bad : Task)
    (s : @State Obj) :
  Forall (fun t => attribute cls (func_name t) <> None) pre ->
  attribute cls (func_name bad) = None ->
  exists s1,
    _run_impl cls pre s = (Ok Receiving, s1) /\
    _run_impl cls (pre ++ bad :: post) s =
      (Raise (AttributeError (func_name bad)), s1) /\
    _run cls (pre ++ bad :: post) s =
      (Raise (AttributeError (func_name bad)),
       {| obj := obj s1; sent := sent s1; pool := pool s1;
          logged := logged s ++ [AttributeError (func_name bad)] |}).
Proof.
  intros Hall Hbad.
  destruct (run_impl_resolvable pre s Hall) as (s1 & Hpre & Hl).
  assert (H : _run_impl cls (pre ++ bad :: post) s =
              (Raise (AttributeError (func_name bad)), s1)).
  { rewrite (run_impl_app pre (bad :: post) s s1 Hpre). simpl.
    unfold bind at 1, dispatch, bind at 1, getattr. rewrite Hbad.
    reflexivity. }
  exists s1. split; [exact Hpre|]. split; [exact H|].
  unfold _run, try_except. rewrite H. unfold bind, logging_error, raise.
  rewrite Hl. reflexivity.
Qed.
End ScheduleFacts.

(** ** More on the stub *)

Section StubMore.
Import Stub Lifecycle.
Context {Obj : Type}.
Variable cls : worker_class Obj.

(** X6.  A [TaskResult] whose msgid is not in the map of a live stub makes
    the pump raise [KeyError] and end there: the lock is released, no future
    and no entry of the map is touched, whatever the pipe holds behind that
    result, the poison pill included, is never read, and the stub is left
    not stopped. *)
Theorem unknown_msgid_ends_pump (w : World) (tr : TaskResult) (d : Dict.t)
    (rest : list (option TaskResult)) :
  _map w = Some d ->
  Dict.getitem (result_msgid tr) d = None ->
  exists w',
    _msg_pump (Some tr :: rest) w = (Raise (KeyError (result_msgid tr)), w') /\
    _map w' = Some d /\
    heap w' = heap w /\
    _pipe w' = _pipe w /\
    trace w' = trace w ++ [Acquire _lock; Release _lock] /\
    _is_stopped w' = (Ok false, w').
Proof.
  intros Hmap Hget. eexists. split.
  - simpl. unfold_stub. rewrite Hmap, Hget. reflexivity.
  - simpl. rewrite <- app_assoc. unfold _is_stopped. simpl.
    rewrite ?Hmap. auto 10.
Qed.

Lemma step_stopped_silent (o : op) (w : World) :
  _map w = None ->
  _map (snd (step cls o w)) = None /\ _pipe (snd (step cls o w)) = _pipe w.
Proof.
  intros Hmap. destruct o as [n|c a k|[tr|]]; unfold step.
  - rewrite getattr_spec. simpl. auto.
  - unfold_stub. rewrite Hmap. simpl.
    destruct (heap w !! result_future c) as [[| |]|]; simpl;
      rewrite ?Hmap; auto.
  - simpl. unfold_stub. rewrite Hmap. simpl. rewrite ?Hmap. auto.
  - simpl. unfold_stub. rewrite Hmap. simpl. rewrite ?Hmap. auto.
Qed.

(** X7.  A stopped stub stays stopped and silent: whatever attribute
    accesses, calls of closures and deliveries to the pump follow, the map
    stays [None] and nothing more is written to the pipe. *)
Theorem stopped_stub_is_final_and_silent (ops : list op) (w : World) :
  _map w = None ->
  _map (snd (run cls ops w)) = None /\
  _pipe (snd (run cls ops w)) = _pipe w.
Proof.
  revert w. induction ops as [|o ops IH]; intros w Hmap; simpl; [auto|].
  destruct (step_stopped_silent o w Hmap) as [H1 H2].
  destruct (step cls o w) as [cs w1]. simpl in *.
  destruct (IH w1 H1) as [H3 H4].
  destruct (run cls ops w1) as [cs' w2]. simpl in *.
  split; [exact H3 | congruence].
Qed.

(** X8.  On a new stub used only through calls written [stub.name(...)],
    with results and the poison pill delivered in any order and with any
    msgids, the map is always well formed as long as the stub is live: one
    entry per msgid, every msgid below the counter, and the futures of the
    map pairwise distinct and not yet done. *)
Theorem pending_table_is_well_formed (ops : list plain_op) (d : Dict.t) :
  _map (plain_run cls ops __init__) = Some d ->
  NoDup (map fst d) /\
  NoDup (map snd d) /\
  forall kv, kv ∈ d ->
    (fst kv < _msgid (plain_run cls ops __init__))%Z /\
    heap (plain_run cls ops __init__) !! snd kv = Some Pending.
Proof.
  intros Hmap.
  pose proof (map_ok_reachable cls ops __init__ map_ok_init) as Hok.
  unfold map_ok in Hok. rewrite Hmap in Hok. exact Hok.
Qed.

(** X9.  On a stopped stub a closure can be called once: the first call
    returns its future, failed with [CancelledError]; a second call of the
    same closure raises [InvalidStateError] instead of returning, because
    the future is already done.  Neither call sends anything. *)
Theorem second_call_after_stop_raises (w : World) (c : closure)
    (a1 a2 : list pyval) (k1 k2 : list (string * pyval)) :
  _map w = None ->
  heap w !! result_future c = Some Pending ->
  exists w1 w2,
    remote_call cls c a1 k1 w = (Ok (result_future c), w1) /\
    heap w1 !! result_future c = Some (Failed (PyExc CancelledError)) /\
    remote_call cls c a2 k2 w1 = (Raise InvalidStateError, w2) /\
    heap w2 = heap w1 /\
    _pipe w2 = _pipe w.
Proof.
  intros Hmap Hpend.
  assert (Hlt : result_future c < length (heap w))
    by (apply lookup_lt_Some in Hpend; exact Hpend).
  eexists _, _. split; [apply remote_call_stopped; assumption|].
  split; [simpl; apply list_lookup_insert_eq; exact Hlt|].
  split.
  - eapply remote_call_stopped_done;
      [reflexivity
      | simpl; apply list_lookup_insert_eq; exact Hlt
      | discriminate].
  - split; reflexivity.
Qed.

(** *** What never goes back *)

Lemma extends_refl (w : World) : extends w w.
Proof. unfold extends. repeat split; auto; try lia. Qed.

Lemma extends_trans (w1 w2 w3 : World) :
  extends w1 w2 -> extends w2 w3 -> extends w1 w3.
Proof.
  intros (Ha & Hb & Hc & Hd) (Ha' & Hb' & Hc' & Hd').
  unfold extends. repeat split.
  - intros f st Hf Hst. apply Ha'; [apply Ha|]; assumption.
  - lia.
  - etransitivity; eassumption.
  - lia.
Qed.

(** A step that keeps the futures, the pipe and the counter. *)
Lemma extends_same (w w' : World) :
  heap w' = heap w -> _pipe w' = _pipe w -> _msgid w' = _msgid w ->
  extends w w'.
Proof.
  intros Hh Hp Hm. unfold extends. rewrite Hh, Hp, Hm.
  repeat split; auto; lia.
Qed.

Lemma extends_bind {A B} (m : M World A) (k : A -> M World B) :
  (forall w, extends w (snd (m w))) ->
  (forall a w, extends w (snd (k a w))) ->
  forall w, extends w (snd (bind m k w)).
Proof.
  intros Hm Hk w. unfold bind. specialize (Hm w).
  destruct (m w) as [[a|e] w1]; simpl in *; [|exact Hm].
  eapply extends_trans; [exact Hm | apply Hk].
Qed.

Lemma extends_with_lock {A} (l : lock) (body : M World A) :
  (forall w, extends w (snd (body w))) ->
  forall w, extends w (snd (with_lock l body w)).
Proof.
  intros Hb w. unfold with_lock, finally.
  specialize (Hb (log (Acquire l) w)).
  destruct (body (log (Acquire l) w)) as [r w1]. simpl in *.
  eapply extends_trans; [apply extends_same; reflexivity|].
  eapply extends_trans; [exact Hb|]. apply extends_same; reflexivity.
Qed.

Lemma extends_for_each {A} (l : list A) (body : A -> M World unit) :
  (forall a w, extends w (snd (body a w))) ->
  forall w, extends w (snd (for_each l body w)).
Proof.
  intros Hb. induction l as [|a l IH]; simpl; [apply extends_refl|].
  apply extends_bind; [apply Hb | intros _; exact IH].
Qed.

Lemma extends_resolve (f : fut) (st : fstate) (w : World) (e : event) :
  heap w !! f = Some Pending ->
  extends w (log e (set_heap (<[f := st]> (heap w)) w)).
Proof.
  intros Hp. unfold extends. simpl. repeat split; try reflexivity.
  - intros f' st' Hf' Hst'. rewrite list_lookup_insert_ne; [exact Hf'|].
    intros Heq. subst f'.
    assert (Hs : Some Pending = Some st')
      by (etransitivity; [symmetry; exact Hp | exact Hf']).
    congruence.
  - rewrite length_insert. lia.
Qed.

Lemma extends_set_result (f : fut) (v : pyval) (w : World) :
  extends w (snd (set_result f v w)).
Proof.
  unfold set_result. destruct (heap w !! f) as [[| |]|] eqn:Hf; simpl;
    try apply extends_refl.
  apply extends_resolve. exact Hf.
Qed.

Lemma extends_set_exception (f : fut) (e : pyval) (w : World) :
  extends w (snd (set_exception f e w)).
Proof.
  unfold set_exception. destruct (heap w !! f) as [[| |]|] eqn:Hf; simpl;
    try apply extends_refl.
  apply extends_resolve. exact Hf.
Qed.

Lemma extends_getattr (n : string) (w : World) :
  extends w (snd (__getattr__ n w)).
Proof.
  rewrite getattr_spec. unfold extends. simpl. repeat split.
  - intros f st Hf _. rewrite lookup_app_l; [exact Hf|].
    apply lookup_lt_Some in Hf. exact Hf.
  - rewrite length_app. lia.
  - reflexivity.
  - lia.
Qed.

Lemma extends_remote_call (c : closure) (a : list pyval)
    (k : list (string * pyval)) (w : World) :
  extends w (snd (remote_call cls c a k w)).
Proof.
  destruct (_map w) as [d|] eqn:Hmap.
  - rewrite (remote_call_live cls w c a k d Hmap). unfold extends. simpl.
    repeat split; auto; try lia. apply prefix_app_r. reflexivity.
  - unfold remote_call. apply extends_bind; [|intros; apply extends_refl].
    apply extends_with_lock, extends_bind; [intros; apply extends_refl|].
    intros [|] w1.
    + apply extends_set_exception.
    + apply extends_bind.
      * apply extends_with_lock. intros w2. unfold pipe_send, extends.
        simpl. repeat split; auto; try lia. apply prefix_app_r. reflexivity.
      * intros _ w2. unfold map_setitem.
        destruct (_map w2); simpl;
          [apply extends_same; reflexivity | apply extends_refl].
Qed.

Lemma extends_pump (inbox : list (option TaskResult)) :
  forall w : World, extends w (snd (_msg_pump inbox w)).
Proof.
  induction inbox as [|[tr|] inbox IH]; intros w; simpl.
  - apply extends_refl.
  - apply extends_bind; [|intros _; exact IH].
    apply extends_with_lock, extends_bind.
    + intros w1. unfold map_getitem. destruct (_map w1) as [d|];
        [destruct (Dict.getitem _ d)|]; apply extends_refl.
    + intros f. apply extends_bind.
      * intros w1. unfold map_delitem. destruct (_map w1) as [d|];
          [destruct (Dict.getitem _ d)|]; simpl;
          try apply extends_refl. apply extends_same; reflexivity.
      * intros _ w1. destruct (success tr);
          [apply extends_set_result | apply extends_set_exception].
  - apply extends_bind; [|intros; apply extends_refl].
    apply extends_with_lock, extends_bind.
    + intros w1. unfold map_items. destruct (_map w1); apply extends_refl.
    + intros items. apply extends_bind.
      * apply extends_for_each. intros kv. apply extends_set_exception.
      * intros _ w1. apply extends_same; reflexivity.
Qed.

(** X10.  A future is resolved at most once, and nothing is ever taken
    back: along any sequence of attribute accesses, calls of closures and
    deliveries to the pump, a future that is done keeps its result or its
    exception for ever, the futures created stay, the tasks written to the
    pipe stay written in their order, and the counter never decreases. *)
Theorem done_future_is_final (ops : list op) (w : World) :
  let w' := snd (run cls ops w) in
  (forall f st, heap w !! f = Some st -> st <> Pending ->
                heap w' !! f = Some st) /\
  length (heap w) <= length (heap w') /\
  _pipe w `prefix_of` _pipe w' /\
  (_msgid w <= _msgid w')%Z.
Proof.
  change (extends w (snd (run cls ops w))).
  revert w. induction ops as [|o ops IH]; intros w; simpl.
  - apply extends_refl.
  - assert (Hstep : extends w (snd (step cls o w))).
    { destruct o as [n|c a k|msg]; unfold step.
      - pose proof (extends_getattr n w) as H.
        destruct (__getattr__ n w) as [[c|e] w1]; exact H.
      - apply extends_remote_call.
      - apply (extends_pump [msg]). }
    destruct (step cls o w) as [cs w1]. simpl in Hstep.
    specialize (IH w1). destruct (run cls ops w1) as [cs' w2]. simpl in *.
    eapply extends_trans; eassumption.
Qed.

(** *** The locks *)

Import Locking.














(** *** The end of a stub *)

Lemma elem_delitem_keep (k k0 : Z) (v : fut) (d : Dict.t) :
  (k0, v) ∈ d -> k0 <> k -> (k0, v) ∈ Dict.delitem k d.
Proof.
  induction d as [|[k' v'] d IH]; simpl; intros Hin Hne.
  - inversion Hin.
  - apply elem_of_cons in Hin as [Heq|Hin].
    + injection Heq as <- <-.
      destruct (Z.eqb k k0) eqn:E; [apply Z.eqb_eq in E; congruence|].
      left.
    + destruct (Z.eqb k k'); [|right]; apply IH; assumption.
Qed.

Lemma getitem_elem_NoDup (k : Z) (v : fut) (d : Dict.t) :
  NoDup (map fst d) -> (k, v) ∈ d -> Dict.getitem k d = Some v.
Proof.
  induction d as [|[k' v'] d IH]; simpl; intros Hnd Hin.
  - inversion Hin.
  - apply NoDup_cons in Hnd as [Hk Hnd].
    apply elem_of_cons in Hin as [Heq|Hin].
    + injection Heq as <- <-. rewrite Z.eqb_refl. reflexivity.
    + destruct (Z.eqb k k') eqn:E; [|apply IH; assumption].
      apply Z.eqb_eq in E. subst k'. exfalso. apply Hk.
      apply list_elem_of_fmap. exists (k, v). auto.
Qed.

Lemma not_future_of_deleted (k : Z) (f : fut) (d : Dict.t) :
  NoDup (map snd d) -> (k, f) ∈ d -> f ∉ map snd (Dict.delitem k d).
Proof.
  intros Hnd Hin Hc. apply list_elem_of_fmap in Hc as ([k0 f0] & Hf & Hc).
  simpl in Hf. subst f0. apply elem_delitem in Hc as [Hne Hc].
  apply Hne. exact (same_future_same_key d _ _ _ Hnd Hc Hin).
Qed.

(** The pump reads results that all answer pending calls, each msgid at
    most once, and then the poison pill. *)
Lemma pump_drains (results : list TaskResult) :
  forall (w : World) (d : Dict.t),
    _map w = Some d ->
    NoDup (map fst d) ->
    NoDup (map snd d) ->
    (forall kv, kv ∈ d -> heap w !! snd kv = Some Pending) ->
    NoDup (map result_msgid results) ->
    (forall r, r ∈ results -> is_Some (Dict.getitem (result_msgid r) d)) ->
    exists w',
      _msg_pump (observer results) w = (Ok Exited, w') /\
      _map w' = None /\
      _pipe w' = _pipe w /\
      (forall r f, r ∈ results ->
         Dict.getitem (result_msgid r) d = Some f ->
         heap w' !! f = Some (resolved r)) /\
      (forall kv, kv ∈ d -> fst kv ∉ map result_msgid results ->
         heap w' !! snd kv = Some (Failed (PyExc CancelledError))) /\
      (forall f, f ∉ map snd d -> heap w' !! f = heap w !! f).
Proof.
  induction results as [|r results IH];
    intros w d Hmap Hk Hf Hpend Hnd Hknown.
  - destruct (pump_stop_live w d Hmap Hf Hpend) as (h' & Hrun & Hc & Ho).
    eexists. split.
    { unfold observer. simpl. unfold bind at 1. rewrite Hrun. reflexivity. }
    simpl. split; [reflexivity|]. split; [reflexivity|].
    split; [intros r f Hr; inversion Hr|].
    split; [intros kv Hkv _; apply Hc; exact Hkv | exact Ho].
  - simpl in Hnd. apply NoDup_cons in Hnd as [Hr Hnd].
    destruct (Hknown r) as [f Hget]; [left|].
    pose proof (getitem_Some_elem _ _ _ Hget) as Hel.
    pose proof (Hpend _ Hel) as Hp. simpl in Hp.
    pose proof (pump_result_known w r d f Hmap Hget Hp) as Hstep.
    set (w1 := {| heap := <[f := resolved r]> (heap w);
                  _msgid := _msgid w;
                  _map := Some (Dict.delitem (result_msgid r) d);
                  _pipe := _pipe w;
                  trace := trace w ++
                    [Acquire _lock; MapDel (result_msgid r);
                     if success r then SetResult f (value r)
                     else SetException f (value r);
                     Release _lock] |}) in *.
    pose proof (delitem_sublist (result_msgid r) d) as Hsub.
    pose proof (not_future_of_deleted _ _ _ Hf Hel) as Hgone.
    destruct (IH w1 (Dict.delitem (result_msgid r) d) eq_refl)
      as (w' & Hrun & Hm & Hpipe & Hres & Hcan & Hoth).
    { eapply sublist_NoDup; [exact Hk | apply (fmap_sublist fst); exact Hsub]. }
    { eapply sublist_NoDup; [exact Hf | apply (fmap_sublist snd); exact Hsub]. }
    { intros [k0 f0] Hkv. pose proof Hkv as Hkv'.
      apply elem_delitem in Hkv' as [Hne Hin]. simpl.
      rewrite list_lookup_insert_ne; [exact (Hpend _ Hin)|].
      intros Heq. subst f0. apply Hgone. apply list_elem_of_fmap.
      exists (k0, f). auto. }
    { exact Hnd. }
    { intros r' Hr'. rewrite getitem_delitem_ne; [apply Hknown; now right|].
      intros Heq. apply Hr. rewrite <- Heq. apply list_elem_of_fmap.
      exists r'. auto. }
    exists w'. split.
    { unfold observer. simpl. unfold bind at 1. unfold resolved in w1.
      rewrite Hstep. exact Hrun. }
    split; [exact Hm|]. split; [exact Hpipe|]. split; [|split].
    + intros r' f' Hr' Hget'. apply elem_of_cons in Hr' as [->|Hr'].
      * assert (f' = f) by congruence. subst f'.
        rewrite (Hoth f Hgone). simpl. apply list_lookup_insert_eq.
        apply lookup_lt_Some in Hp. exact Hp.
      * apply (Hres r' f' Hr'). rewrite getitem_delitem_ne; [exact Hget'|].
        intros Heq. apply Hr. rewrite <- Heq. apply list_elem_of_fmap.
        exists r'. auto.
    + intros [k0 f0] Hkv Hnot. simpl in *.
      apply not_elem_of_cons in Hnot as [Hne Hnot].
      apply (Hcan (k0, f0)); [|exact Hnot].
      apply elem_delitem_keep; assumption.
    + intros f0 Hf0. rewrite Hoth.
      * simpl. apply list_lookup_insert_ne. intros Heq. subst f0.
        apply Hf0. apply list_elem_of_fmap. exists (result_msgid r, f). auto.
      * intros Hc. apply Hf0.
        apply list_elem_of_fmap in Hc as (kv & Hkv & Hc).
        apply list_elem_of_fmap. exists kv. split; [exact Hkv|].
        eapply elem_of_sublist; eassumption.
Qed.

(** X12.  When the process of a live stub ends, the observer writes the
    poison pill behind the results still in the pipe.  With a well-formed
    map (one entry per msgid, futures distinct and not yet done) and
    results that each answer a different pending call, the pump resolves
    those calls with their results, fails every other pending call with
    [CancelledError], sets the map to [None] and returns: no future of the
    map is left pending, and no other future is touched. *)
Theorem pump_drains_then_cancels (w : World) (d : Dict.t)
    (results : list TaskResult) :
  _map w = Some d ->
  NoDup (map fst d) ->
  NoDup (map snd d) ->
  (forall kv, kv ∈ d -> heap w !! snd kv = Some Pending) ->
  NoDup (map result_msgid results) ->
  (forall r, r ∈ results -> is_Some (Dict.getitem (result_msgid r) d)) ->
  exists w',
    _msg_pump (observer results) w = (Ok Exited, w') /\
    _map w' = None /\
    (forall r f, r ∈ results ->
       Dict.getitem (result_msgid r) d = Some f ->
       heap w' !! f = Some (resolved r)) /\
    (forall kv, kv ∈ d -> fst kv ∉ map result_msgid results ->
       heap w' !! snd kv = Some (Failed (PyExc CancelledError))) /\
    (forall kv, kv ∈ d ->
       exists st, heap w' !! snd kv = Some st /\ st <> Pending) /\
    (forall f, f ∉ map snd d -> heap w' !! f = heap w !! f).
Proof.
  intros Hmap Hk Hf Hpend Hnd Hknown.
  destruct (pump_drains results w d Hmap Hk Hf Hpend Hnd Hknown)
    as (w' & Hrun & Hm & _ & Hres & Hcan & Hoth).
  exists w'. split; [exact Hrun|]. split; [exact Hm|].
  split; [exact Hres|]. split; [exact Hcan|]. split; [|exact Hoth].
  intros [k f] Hkv.
  destruct (decide (k ∈ map result_msgid results)) as [Hin|Hnot].
  - apply list_elem_of_fmap in Hin as (r & -> & Hr).
    exists (resolved r). split.
    + apply (Hres r f Hr). apply getitem_elem_NoDup; assumption.
    + unfold resolved. destruct (success r); discriminate.
  - exists (Failed (PyExc CancelledError)). split; [|discriminate].
    apply (Hcan (k, f) Hkv Hnot).
Qed.
End StubMore.

(** ** A call, from the stub to the hosted method and back *)

Section RoundTrip.
Import Stub Lifecycle.
Context {Obj : Type}.
Variable cls : worker_class Obj.

Lemma delitem_setitem_new (k : Z) (v : fut) (d : Dict.t) :
  Dict.getitem k d = None -> Dict.delitem k (Dict.setitem k v d) = d.
Proof.
  induction d as [|[k' v'] d IH]; simpl.
  - intros _. rewrite Z.eqb_refl. reflexivity.
  - destruct (Z.eqb k k') eqn:E; [discriminate|]. intros Hnone.
    simpl. rewrite E, (IH Hnone). reflexivity.
Qed.

Lemma serve_one (task : Task) (s : @Worker.State Obj) (m : method Obj) :
  attribute cls (func_name task) = Some m ->
  Worker.pool s = [] ->
  Schedule.play cls [Schedule.Recv task; Schedule.Execute] s =
    (Ok tt,
     {| Worker.obj := snd (m (args task) (kwargs task) (Worker.obj s));
        Worker.sent := Worker.sent s ++
          [Schedule.reply_of (msgid task)
             (fst (m (args task) (kwargs task) (Worker.obj s)))];
        Worker.pool := [];
        Worker.logged := Worker.logged s |}).
Proof.
  intros Hm Hpool. unfold Schedule.play. simpl. unfold bind at 1.
  destruct (is_urgent task) eqn:Hu.
  - rewrite (urgent_dispatch cls task s m Hu Hm). unfold bind at 1.
    rewrite pool_run_one_spec. simpl. rewrite Hpool. unfold ret.
    destruct (fst (m (args task) (kwargs task) (Worker.obj s)));
      reflexivity.
  - rewrite (queued_dispatch cls task s m Hu Hm). unfold bind at 1.
    rewrite pool_run_one_spec. simpl. rewrite Hpool. reflexivity.
Qed.

(** X13.  A call on a live stub comes back with what the method did.  The
    task that [stub.n(args, kwargs)] writes to the pipe, served by a worker
    whose object has the method [n] and whose executor is idle, gets one
    result, sent by the loop itself if [n] is a priority method and by the
    executor otherwise; fed to the pump, that result resolves the future of
    the call with the value the method returned, or fails it with the
    exception the method raised, and removes the entry of the call: the map
    is again what it was before the call. *)
Theorem call_reaches_method_and_back (w : World) (d : Dict.t)
    (s : @Worker.State Obj) (n : string) (a : list pyval)
    (k : list (string * pyval)) (m : method Obj) :
  _map w = Some d ->
  Dict.getitem (_msgid w) d = None ->
  attribute cls n = Some m ->
  Worker.pool s = [] ->
  let f := length (heap w) in
  let task :=
    {| msgid := _msgid w; func_name := n; args := a; kwargs := k;
       is_urgent := is_priority_method cls n |} in
  let reply := Schedule.reply_of (_msgid w) (fst (m a k (Worker.obj s))) in
  exists w1 s1 w2,
    call_method cls n a k w = (Ok f, w1) /\
    _pipe w1 = _pipe w ++ [task] /\
    Schedule.play cls [Schedule.Recv task; Schedule.Execute] s
      = (Ok tt, s1) /\
    Worker.sent s1 = Worker.sent s ++ [reply] /\
    Worker.obj s1 = snd (m a k (Worker.obj s)) /\
    pump_result reply w1 = (Ok tt, w2) /\
    heap w2 !! f =
      Some (match fst (m a k (Worker.obj s)) with
            | Returns v => Finished v
            | Throws e => Failed (PyExc e)
            end) /\
    _map w2 = Some d /\
    _msgid w2 = (_msgid w + 1)%Z.
Proof.
  intros Hmap Hnew Hm Hpool f task reply.
  destruct (call_method_spec cls w n a k) as (w1 & Hcall & Hid & Hrest).
  rewrite Hmap in Hrest. destruct Hrest as (Hm1 & Hp1 & Hh1).
  fold f in Hcall, Hm1.
  assert (Hreply : result_msgid reply = _msgid w)
    by (unfold reply; destruct (fst (m a k (Worker.obj s))); reflexivity).
  assert (Hget : Dict.getitem (result_msgid reply)
                   (Dict.setitem (_msgid w) f d) = Some f)
    by (rewrite Hreply; apply getitem_setitem_eq).
  assert (Hpend : heap w1 !! f = Some Pending)
    by (rewrite Hh1; apply lookup_fresh_future).
  pose proof (pump_result_known w1 reply _ f Hm1 Hget Hpend) as Hpump.
  eexists w1, _, _. split; [exact Hcall|]. split; [exact Hp1|].
  split; [apply (serve_one task s m Hm Hpool)|].
  split; [reflexivity|]. split; [reflexivity|].
  split; [exact Hpump|]. simpl. split; [|split].
  - rewrite list_lookup_insert_eq
      by (apply lookup_lt_Some in Hpend; exact Hpend).
    unfold reply. destruct (fst (m a k (Worker.obj s))); reflexivity.
  - rewrite Hreply, delitem_setitem_new by exact Hnew. reflexivity.
  - exact Hid.
Qed.

(** X14.  One closure called several times on a live stub has one entry in
    the map, so only the first result for its msgid finds it: that result
    resolves the shared future, and the next result with the same msgid
    makes the pump raise [KeyError] and end, with the stub left not
    stopped and the future as the first result left it. *)
Theorem second_reply_to_reused_closure (w : World) (d : Dict.t)
    (c : closure) (calls : list (list pyval * list (string * pyval)))
    (r1 r2 : TaskResult) (rest : list (option TaskResult)) :
  _map w = Some d ->
  heap w !! result_future c = Some Pending ->
  calls <> [] ->
  result_msgid r1 = call_msgid c ->
  result_msgid r2 = call_msgid c ->
  exists w1 w2 d2,
    invoke_each cls c calls w =
      (Ok (map (fun _ => result_future c) calls), w1) /\
    _msg_pump (Some r1 :: Some r2 :: rest) w1 =
      (Raise (KeyError (call_msgid c)), w2) /\
    heap w2 !! result_future c = Some (resolved r1) /\
    _map w2 = Some d2 /\
    Dict.getitem (call_msgid c) d2 = None.
Proof.
  intros Hmap Hpend Hne H1 H2.
  destruct (invoke_each_live cls c calls w d Hmap)
    as (w1 & Hrun & _ & Hheap & _ & Hm1).
  destruct calls as [|x calls]; [contradiction|].
  assert (Hget : Dict.getitem (result_msgid r1)
                   (Dict.setitem (call_msgid c) (result_future c) d)
                 = Some (result_future c))
    by (rewrite H1; apply getitem_setitem_eq).
  assert (Hp1 : heap w1 !! result_future c = Some Pending)
    by (rewrite Hheap; exact Hpend).
  pose proof (pump_result_known w1 r1 _ _ Hm1 Hget Hp1) as Hstep.
  match type of Hstep with _ = (_, ?x) => set (w1' := x) in * end.
  assert (Hgone : Dict.getitem (result_msgid r2)
                    (Dict.delitem (result_msgid r1)
                       (Dict.setitem (call_msgid c) (result_future c) d))
                  = None)
    by (rewrite H1, H2; apply getitem_delitem_eq).
  pose proof (pump_result_unknown w1' r2 _ rest eq_refl Hgone) as Hsecond.
  eexists w1, _, _. split; [exact Hrun|]. split.
  { change (_msg_pump (Some r1 :: Some r2 :: rest) w1)
      with (bind (pump_result r1)
              (fun _ => _msg_pump (Some r2 :: rest)) w1).
    unfold bind at 1. rewrite Hstep, Hsecond, H2. reflexivity. }
  simpl. split; [|split; [reflexivity|]].
  - apply list_lookup_insert_eq. apply lookup_lt_Some in Hp1. exact Hp1.
  - rewrite H1. apply getitem_delitem_eq.
Qed.
End RoundTrip.

(** ** The extra properties, on the situations above *)

Lemma non_urgent_task_is_queued_witness :
  Worker._run_impl Sample.cls [Scenario.queued_echo]
    (Worker.start Sample.cls [] []) =
    (Ok Worker.Receiving,
     {| Worker.obj := 0; Worker.sent := [];
        Worker.pool := [(3%Z, Sample.echo [PyInt 5] [])];
        Worker.logged := [] |}).
Proof.
  exact (proj2 (non_urgent_task_is_queued Sample.cls Scenario.queued_echo []
                  (Worker.start Sample.cls [] []) Sample.echo
                  eq_refl eq_refl)).
Defined.

Lemma every_task_gets_one_result_witness :
  exists s' s'',
    Schedule.play Sample.cls Scenario.mixed (Worker.start Sample.cls [] [])
      = (Ok tt, s') /\
    Schedule.play Sample.cls
      (repeat Schedule.Execute (length (Worker.pool s'))) s' = (Ok tt, s'') /\
    map result_msgid (Worker.sent s'') ≡ₚ [3; 7]%Z.
Proof.
  assert (Hres : forall task, Schedule.Recv task ∈ Scenario.mixed ->
            attribute Sample.cls (func_name task) <> None).
  { intros task Hin. apply list_elem_of_In in Hin. simpl in Hin.
    destruct Hin as [H|[H|[H|[]]]]; try discriminate H;
      injection H as <-; discriminate. }
  destruct (every_task_gets_one_result Sample.cls Scenario.mixed
              (Worker.start Sample.cls [] []) Hres)
    as (s' & s'' & Hplay & _ & _ & Hdrain & _ & Hall).
  exists s', s''. split; [exact Hplay|]. split; [exact Hdrain | exact Hall].
Defined.

Lemma run_survives_method_errors_witness :
  exists s',
    Worker._run Sample.cls [Sample.urgent_boom; Scenario.queued_echo]
      (Worker.start Sample.cls [] []) = (Ok Worker.Receiving, s') /\
    Worker.logged s' = [].
Proof.
  assert (Hall : Forall (fun t => attribute Sample.cls (func_name t) <> None)
                   [Sample.urgent_boom; Scenario.queued_echo])
    by (repeat constructor; discriminate).
  destruct (run_survives_method_errors Sample.cls _
              (Worker.start Sample.cls [] []) Hall) as (s' & Hrun & _ & Hl).
  exists s'. split; [exact Hrun | exact Hl].
Defined.

Lemma first_unknown_method_ends_worker_witness :
  exists s1,
    Worker._run_impl Sample.cls
      ([Sample.urgent_boom] ++ Sample.no_such_method :: [Scenario.queued_echo])
      (Worker.start Sample.cls [] []) = (Raise (AttributeError "nope"), s1) /\
    Worker._run_impl Sample.cls [Sample.urgent_boom]
      (Worker.start Sample.cls [] []) = (Ok Worker.Receiving, s1).
Proof.
  assert (Hall : Forall (fun t => attribute Sample.cls (func_name t) <> None)
                   [Sample.urgent_boom])
    by (repeat constructor; discriminate).
  destruct (first_unknown_method_ends_worker Sample.cls [Sample.urgent_boom]
              [Scenario.queued_echo] Sample.no_such_method
              (Worker.start Sample.cls [] []) Hall eq_refl)
    as (s1 & Hpre & Hrun & _).
  exists s1. split; [exact Hrun | exact Hpre].
Defined.

Lemma unknown_msgid_ends_pump_witness :
  exists w',
    Stub._msg_pump [Some Scenario.stray_reply; None] Sample.one_pending =
      (Raise (KeyError 9), w') /\
    Stub._map w' = Some [(0%Z, 0)] /\
    Stub.heap w' = [Pending].
Proof.
  destruct (unknown_msgid_ends_pump Sample.one_pending Scenario.stray_reply
              [(0%Z, 0)] [None] eq_refl eq_refl)
    as (w' & Hrun & Hm & Hh & _).
  exists w'. split; [exact Hrun|]. split; [exact Hm | exact Hh].
Defined.

Lemma stopped_stub_is_final_and_silent_witness :
  Stub._map (snd (Stub.run Sample.cls
                    [Stub.Access "boom";
                     Stub.Invoke Sample.first_closure [] [];
                     Stub.Deliver (Some Sample.echo_reply)]
                    Sample.stopped)) = None /\
  Stub._pipe (snd (Stub.run Sample.cls
                     [Stub.Access "boom";
                      Stub.Invoke Sample.first_closure [] [];
                      Stub.Deliver (Some Sample.echo_reply)]
                     Sample.stopped)) = [].
Proof.
  exact (stopped_stub_is_final_and_silent Sample.cls _ Sample.stopped
           eq_refl).
Defined.

Lemma pending_table_is_well_formed_witness :
  NoDup (map fst [(0%Z, 0); (1%Z, 1)]) /\
  NoDup (map snd [(0%Z, 0); (1%Z, 1)]) /\
  forall kv, kv ∈ [(0%Z, 0); (1%Z, 1)] ->
    (fst kv < Stub._msgid Scenario.two_pending)%Z /\
    Stub.heap Scenario.two_pending !! snd kv = Some Pending.
Proof.
  exact (pending_table_is_well_formed Sample.cls Scenario.two_calls
           [(0%Z, 0); (1%Z, 1)] eq_refl).
Defined.

Lemma second_call_after_stop_raises_witness :
  exists w1 w2,
    Stub.remote_call Sample.cls Sample.first_closure [PyInt 1] []
      Sample.stopped = (Ok 0, w1) /\
    Stub.remote_call Sample.cls Sample.first_closure [PyInt 2] [] w1 =
      (Raise InvalidStateError, w2).
Proof.
  destruct (second_call_after_stop_raises Sample.cls Sample.stopped
              Sample.first_closure [PyInt 1] [PyInt 2] [] []
              eq_refl eq_refl)
    as (w1 & w2 & H1 & _ & H2 & _).
  exists w1, w2. split; [exact H1 | exact H2].
Defined.

Lemma pump_drains_then_cancels_witness :
  exists w',
    Stub._msg_pump (Lifecycle.observer [Scenario.boom_reply])
      Scenario.two_pending = (Ok Stub.Exited, w') /\
    Stub._map w' = None /\
    Stub.heap w' !! 1 = Some (Failed (PyExc (Exception "x"))) /\
    Stub.heap w' !! 0 = Some (Failed (PyExc CancelledError)).
Proof.
  assert (Hk : NoDup (map fst [(0%Z, 0); (1%Z, 1)]))
    by (apply NoDup_ListNoDup; repeat constructor; simpl; intuition lia).
  assert (Hf : NoDup (map snd [(0%Z, 0); (1%Z, 1)]))
    by (apply NoDup_ListNoDup; repeat constructor; simpl; intuition lia).
  assert (Hp : forall kv : Z * fut, kv ∈ [(0%Z, 0); (1%Z, 1)] ->
            Stub.heap Scenario.two_pending !! snd kv = Some Pending).
  { intros kv Hin. apply list_elem_of_In in Hin. simpl in Hin.
    destruct Hin as [<-|[<-|[]]]; reflexivity. }
  assert (Hr : NoDup (map result_msgid [Scenario.boom_reply]))
    by apply NoDup_singleton.
  assert (Hknown : forall r, r ∈ [Scenario.boom_reply] ->
            is_Some (Dict.getitem (result_msgid r) [(0%Z, 0); (1%Z, 1)])).
  { intros r Hin. apply list_elem_of_singleton in Hin. subst r.
    exists 1. reflexivity. }
  destruct (pump_drains_then_cancels Scenario.two_pending
              [(0%Z, 0); (1%Z, 1)] [Scenario.boom_reply]
              eq_refl Hk Hf Hp Hr Hknown)
    as (w' & Hrun & Hm & Hres & Hcan & _).
  exists w'. split; [exact Hrun|]. split; [exact Hm|]. split.
  - apply (Hres Scenario.boom_reply 1); [left | reflexivity].
  - apply (Hcan (0%Z, 0)); [left|]. simpl. intros Hin.
    apply list_elem_of_singleton in Hin. discriminate Hin.
Defined.

Lemma call_reaches_method_and_back_witness :
  exists (w1 : Stub.World) (s1 : @Worker.State nat) (w2 : Stub.World),
    Stub.call_method Sample.cls "echo" [PyInt 5] [] Stub.__init__
      = (Ok 0, w1) /\
    Worker.sent s1 =
      [{| result_msgid := 0; success := true; value := PyInt 5 |}] /\
    Stub.pump_result {| result_msgid := 0; success := true;
                        value := PyInt 5 |} w1 = (Ok tt, w2) /\
    Stub.heap w2 !! 0 = Some (Finished (PyInt 5)) /\
    Stub._map w2 = Some [].
Proof.
  destruct (call_reaches_method_and_back Sample.cls Stub.__init__ []
              (Worker.start Sample.cls [] []) "echo" [PyInt 5] []
              Sample.echo eq_refl eq_refl eq_refl eq_refl)
    as (w1 & s1 & w2 & Hcall & _ & _ & Hsent & _ & Hpump & Hheap & Hm & _).
  exists w1, s1, w2. split; [exact Hcall|]. split; [exact Hsent|].
  split; [exact Hpump|]. split; [exact Hheap | exact Hm].
Defined.

Lemma second_reply_to_reused_closure_witness :
  exists w1 w2,
    Stub.invoke_each Sample.cls Sample.first_closure
      [([PyInt 1], []); ([PyInt 2], [])]
      (snd (Stub.__getattr__ "echo" Stub.__init__)) = (Ok [0; 0], w1) /\
    Stub._msg_pump [Some Sample.echo_reply; Some Sample.echo_reply; None] w1
      = (Raise (KeyError 0), w2) /\
    Stub.heap w2 !! 0 = Some (Finished (PyInt 5)).
Proof.
  assert (Hne : [([PyInt 1], []); ([PyInt 2], [])]
                <> ([] : list (list pyval * list (string * pyval))))
    by discriminate.
  destruct (second_reply_to_reused_closure Sample.cls
              (snd (Stub.__getattr__ "echo" Stub.__init__)) []
              Sample.first_closure [([PyInt 1], []); ([PyInt 2], [])]
              Sample.echo_reply Sample.echo_reply [None]
              eq_refl eq_refl Hne eq_refl eq_refl)
    as (w1 & w2 & d2 & Hrun & Hpump & Hheap & _).
  exists w1, w2. split; [exact Hrun|]. split; [exact Hpump | exact Hheap].
Defined.

(** The poison pill on a map that holds a future already done.  After
    [f = stub.echo; f(1)], its result, and [f(2)], [set_exception] refuses
    the future: the pump raises [InvalidStateError] inside its loop over
    the map and ends without setting the map to [None].  The stub is not
    stopped, and a later [stub.echo(3)] is sent to the worker and its
    future left pending, not failed with [CancelledError]. *)
Lemma poison_pill_meets_done_future :
  Stub._map Scenario.reused_after_reply = Some [(0%Z, 0)] /\
  Stub.heap Scenario.reused_after_reply = [Finished (PyInt 5)] /\
  Stub._msg_pump [None] Scenario.reused_after_reply =
    (Raise InvalidStateError, Scenario.after_poison_pill) /\
  Stub._map Scenario.after_poison_pill <> None /\
  Stub._is_stopped Scenario.after_poison_pill =
    (Ok false, Scenario.after_poison_pill) /\
  exists w,
    Stub.call_method Sample.cls "echo" [PyInt 3] []
      Scenario.after_poison_pill = (Ok 1, w) /\
    Stub.sent_msgids w =
      Stub.sent_msgids Scenario.after_poison_pill ++ [1%Z] /\
    Stub.heap w !! 1 = Some Pending /\
    Stub.heap w !! 1 <> Some (Failed (PyExc CancelledError)).
Proof.
  split; [reflexivity|]. split; [reflexivity|]. split; [reflexivity|].
  split; [discriminate|]. split; [reflexivity|].
  eexists. split; [reflexivity|]. split; [reflexivity|].
  split; [reflexivity | discriminate].
Qed.
